(** * VShield: the njs IP whitelist gate of [VShield.js]

    A shallow embedding of [VShield.js] and proofs about its whitelist,
    its allow/deny decision, its renewal and its HTTP / stream entry points.

    Conventions of the embedding.
    - A JavaScript number is [JsNum]: NaN, an infinity, or a finite value
      kept as an exact canonical rational ([Qc]).  The conversion of a string
      rounds the value of the literal to the nearest double, with overflow
      to an infinity.  Comparisons are exact, as they are on doubles.  Sums
      and differences are the exact ones: they are those of the source when
      the exact result is a double, as it is for integers up to 2^53, and
      the statements about a stored sum name that range ([exact_write]).
    - [ngx.shared.vs_ip] is an optional finite map from address to the
      pair of the stored value and the ttl handed to [set]; it follows the
      [get]/[set]/[delete]/[keys] contract that [test/VShield.test.mjs]
      fixes with [SharedDictMock] (no autonomous eviction).  The order in
      which [keys()] enumerates is a parameter of the world ([KeyOrder]).
    - [Date.now()] reads an oracle [clock] at the current tick and moves the
      tick on, so two reads inside one call may differ.
    - A handler runs in a state-and-exception monad [JS] over [World]. *)

From Stdlib Require Import ZArith QArith Qcanon String Ascii List.
From stdpp Require Import gmap strings list fin_maps numbers.

Local Open Scope Z_scope.
Local Open Scope string_scope.

(** ** JavaScript values *)

Inductive JsNum : Type :=
  | NaN
  | Inf (negative : bool)
  | Fin (q : Qc).

Inductive JsVal : Type :=
  | VUndefined
  | VNum (n : JsNum)
  | VStr (s : string).

Definition num_of_Z (z : Z) : JsNum := Fin (Qc_of_Z z).

Global Instance JsNum_eq_dec : EqDecision JsNum.
Proof. solve_decision. Defined.

Global Instance JsVal_eq_dec : EqDecision JsVal.
Proof. solve_decision. Defined.

Module Num.

(** [a <= b] of the language: false as soon as one side is NaN. *)
Definition le (a b : JsNum) : bool :=
  match a, b with
  | NaN, _ | _, NaN => false
  | Inf true, _ => true
  | _, Inf false => true
  | Inf false, _ => false
  | _, Inf true => false
  | Fin x, Fin y => bool_decide (x ≤ y)%Qc
  end.

(** [a > b]. *)
Definition gt (a b : JsNum) : bool :=
  match a, b with
  | NaN, _ | _, NaN => false
  | Inf s, Inf t => negb s && t
  | Inf s, Fin _ => negb s
  | Fin _, Inf t => t
  | Fin x, Fin y => bool_decide (y < x)%Qc
  end.

(** [a + b], as the exact sum.  The source adds doubles: its sum is the
    exact one whenever the exact one is a double, and the nearest double
    otherwise; that rounding is not modelled. *)
Definition add (a b : JsNum) : JsNum :=
  match a, b with
  | NaN, _ | _, NaN => NaN
  | Inf s, Inf t => if Bool.eqb s t then Inf s else NaN
  | Inf s, Fin _ => Inf s
  | Fin _, Inf t => Inf t
  | Fin x, Fin y => Fin (x + y)%Qc
  end.

(** [a - b], as the exact difference, under the same proviso. *)
Definition sub (a b : JsNum) : JsNum :=
  match a, b with
  | NaN, _ | _, NaN => NaN
  | Inf s, Inf t => if Bool.eqb s t then NaN else Inf s
  | Inf s, Fin _ => Inf s
  | Fin _, Inf t => Inf (negb t)
  | Fin x, Fin y => Fin (x - y)%Qc
  end.

(** [Number.isNaN]. *)
Definition isNaN (a : JsNum) : bool :=
  match a with NaN => true | _ => false end.

(** [Number.isInteger]: a finite value whose canonical denominator is 1. *)
Definition isInteger (a : JsNum) : bool :=
  match a with
  | Fin q => bool_decide (Qden (this q) = 1%positive)
  | _ => false
  end.

End Num.

(** ** Rounding an exact value to a double *)

Module Double.

(** [n / d] rounded to the nearest integer, ties to the even one, for
    [0 <= n] and [0 < d]. *)
Definition round_half_even (n d : Z) : Z :=
  let q := n / d in
  let r := n mod d in
  if (2 * r <? d)%Z then q
  else if (d <? 2 * r)%Z then q + 1
  else if Z.even q then q else q + 1.

(** [2^e <= n / d], for positive [n] and [d]. *)
Definition reaches (n d e : Z) : bool :=
  if (0 <=? e)%Z then (d * 2 ^ e <=? n)%Z else (d <=? n * 2 ^ (- e))%Z.

(** [m * 2^p] as a number; an integer comes out as the image of an integer. *)
Definition scaled (m p : Z) : JsNum :=
  if (0 <=? p)%Z then num_of_Z (m * 2 ^ p)
  else
    let q := Qred (Qmake m (Z.to_pos (2 ^ (- p)))) in
    match Qden q with
    | xH => num_of_Z (Qnum q)
    | _ => Fin (Q2Qc q)
    end.

(** The double nearest to [n / d], for positive [n] and [d]: 53 bits of
    significand at the binary exponent of the value, the spacing of the
    subnormals below [2^-1022], and [Infinity] from [2^1024] on. *)
Definition nearest (n d : Z) : JsNum :=
  let e0 := Z.log2 n - Z.log2 d in
  let e := if reaches n d e0 then e0 else e0 - 1 in
  let p := Z.max (e - 52) (- 1074) in
  let m := if (0 <=? p)%Z then round_half_even n (d * 2 ^ p)
           else round_half_even (n * 2 ^ (- p)) d in
  if ((0 <=? p) && (2 ^ 1024 <=? m * 2 ^ p))%Z then Inf false
  else scaled m p.

(** The double nearest to an exact rational, ties to even. *)
Definition round (q : Qc) : JsNum :=
  let n := Qnum (this q) in
  let d := Z.pos (Qden (this q)) in
  if (n =? 0)%Z then num_of_Z 0
  else if (0 <? n)%Z then nearest n d
  else match nearest (- n) d with
       | NaN => NaN
       | Inf s => Inf (negb s)
       | Fin x => Fin (- x)%Qc
       end.

End Double.

(** ** [Number(string)]: the StringNumericLiteral grammar *)

Module StringToNumber.

(** A string is its UTF-8 bytes.  The one-byte StrWhiteSpaceChar: tab, line
    feed, vertical tab, form feed, carriage return and space. *)
Definition is_space (c : ascii) : bool :=
  let n := N_of_ascii c in
  ((9 <=? n) && (n <=? 13) || (n =? 32))%N.

(** The other StrWhiteSpaceChar, by their UTF-8 bytes: U+00A0 after the
    byte C2; U+1680, U+2000 to U+200A, U+2028, U+2029, U+202F, U+205F and
    U+3000 after E1, E2 or E3; U+FEFF after EF. *)
Definition is_space2 (a b : N) : bool := ((a =? 194) && (b =? 160))%N.

Definition is_space3 (a b c : N) : bool :=
  ((a =? 225) && (b =? 154) && (c =? 128)
   || (a =? 226) && (b =? 128)
      && ((128 <=? c) && (c <=? 138) || (c =? 168) || (c =? 169) || (c =? 175))
   || (a =? 226) && (b =? 129) && (c =? 159)
   || (a =? 227) && (b =? 128) && (c =? 128)
   || (a =? 239) && (b =? 187) && (c =? 191))%N.

(** What is left of [s] after one leading white space character, if [s]
    starts with one. *)
Definition after_space (s : string) : option string :=
  match s with
  | String a r1 =>
      if is_space a then Some r1 else
      match r1 with
      | String b r2 =>
          if is_space2 (N_of_ascii a) (N_of_ascii b) then Some r2 else
          match r2 with
          | String c r3 =>
              if is_space3 (N_of_ascii a) (N_of_ascii b) (N_of_ascii c)
              then Some r3 else None
          | EmptyString => None
          end
      | EmptyString => None
      end
  | EmptyString => None
  end.

Fixpoint trim_left (s : string) : string :=
  match s with
  | String a (String b (String c r3 as r2) as r1) =>
      if is_space a then trim_left r1
      else if is_space2 (N_of_ascii a) (N_of_ascii b) then trim_left r2
      else if is_space3 (N_of_ascii a) (N_of_ascii b) (N_of_ascii c)
      then trim_left r3
      else s
  | String a (String b r2 as r1) =>
      if is_space a then trim_left r1
      else if is_space2 (N_of_ascii a) (N_of_ascii b) then trim_left r2
      else s
  | String a r1 => if is_space a then trim_left r1 else s
  | EmptyString => s
  end.

(** Drop trailing white space: a suffix made of white space only goes. *)
Fixpoint trim_right (s : string) : string :=
  match s with
  | EmptyString => EmptyString
  | String c s' =>
      match trim_left s with
      | EmptyString => EmptyString
      | _ => String c (trim_right s')
      end
  end.

Definition digit_val (c : ascii) : option Z :=
  let n := Z.of_N (N_of_ascii c) in
  if ((48 <=? n) && (n <=? 57))%Z then Some (n - 48)
  else if ((97 <=? n) && (n <=? 122))%Z then Some (n - 87)
  else if ((65 <=? n) && (n <=? 90))%Z then Some (n - 55)
  else None.

(** Longest prefix of digits in [base]: value, number of digits, rest. *)
Fixpoint digits (base : Z) (s : string) (acc : Z) (n : nat)
  : Z * nat * string :=
  match s with
  | String c s' =>
      match digit_val c with
      | Some d => if (d <? base)%Z then digits base s' (acc * base + d) (S n)
                  else (acc, n, s)
      | None => (acc, n, s)
      end
  | EmptyString => (acc, n, s)
  end.

(** [m * 10^e] as an exact rational. *)
Definition scale10 (m e : Z) : Qc :=
  if (0 <=? e)%Z then Qc_of_Z (m * 10 ^ e)
  else Q2Qc (Qmake m (Z.to_pos (10 ^ (- e)))).

(** ExponentPart, or nothing; [None] when what follows is not one. *)
Definition exponent (s : string) : option Z :=
  match s with
  | EmptyString => Some 0
  | String c r =>
      if bool_decide (c = "e"%char) || bool_decide (c = "E"%char) then
        let '(sign, r') :=
          match r with
          | String "+" t => (1, t)
          | String "-" t => (-1, t)
          | _ => (1, r)
          end in
        match digits 10 r' 0 0 with
        | (v, S _, EmptyString) => Some (sign * v)
        | _ => None
        end
      else None
  end.

(** StrUnsignedDecimalLiteral. *)
Definition unsigned_decimal (s : string) : JsNum :=
  if bool_decide (s = "Infinity") then Inf false else
  let '(ip, ni, r1) := digits 10 s 0 0 in
  let '(fp, nf, r2) :=
    match r1 with
    | String "." t => digits 10 t 0 0
    | _ => (0, O, r1)
    end in
  match ni, nf with
  | O, O => NaN
  | _, _ =>
      match exponent r2 with
      | Some e => Fin (scale10 (ip * 10 ^ Z.of_nat nf + fp) (e - Z.of_nat nf))
      | None => NaN
      end
  end.

Definition negate (n : JsNum) : JsNum :=
  match n with
  | NaN => NaN
  | Inf s => Inf (negb s)
  | Fin q => Fin (- q)%Qc
  end.

(** NonDecimalIntegerLiteral body: all of [s] are digits of [base]. *)
Definition radix (base : Z) (s : string) : JsNum :=
  match digits base s 0 0 with
  | (v, S _, EmptyString) => num_of_Z v
  | _ => NaN
  end.

(** The mathematical value of the literal, before rounding. *)
Definition literal (s : string) : JsNum :=
  match trim_right (trim_left s) with
  | EmptyString => num_of_Z 0
  | String "0" (String "x" t) | String "0" (String "X" t) => radix 16 t
  | String "0" (String "o" t) | String "0" (String "O" t) => radix 8 t
  | String "0" (String "b" t) | String "0" (String "B" t) => radix 2 t
  | String "+" t => unsigned_decimal t
  | String "-" t => negate (unsigned_decimal t)
  | t => unsigned_decimal t
  end.

(** StringToNumber: the literal's value rounded to the nearest double. *)
Definition parse (s : string) : JsNum :=
  match literal s with
  | Fin q => Double.round q
  | n => n
  end.

End StringToNumber.

(** [Number(v)]. *)
Definition Number (v : JsVal) : JsNum :=
  match v with
  | VUndefined => NaN
  | VNum n => n
  | VStr s => StringToNumber.parse s
  end.

(** ** [new Date(t).toISOString()] *)

Module Date.

Definition msPerDay : Z := 86400000.

(** TimeClip: [None] is the invalid date.  The range is tested on the
    value itself, which is then truncated towards zero. *)
Definition TimeClip (t : JsNum) : option Z :=
  match t with
  | Fin q =>
      let n := Qnum (this q) in
      let d := Z.pos (Qden (this q)) in
      if (Z.abs n <=? 8640000000000000 * d)%Z then Some (Z.quot n d) else None
  | _ => None
  end.

(** Year, month and day of the proleptic Gregorian calendar for a count
    of days since 1970-01-01. *)
Definition civil (days : Z) : Z * Z * Z :=
  let z := days + 719468 in
  let era := z / 146097 in
  let doe := z - era * 146097 in
  let yoe := (doe - doe / 1460 + doe / 36524 - doe / 146096) / 365 in
  let doy := doe - (365 * yoe + yoe / 4 - yoe / 100) in
  let mp := (5 * doy + 2) / 153 in
  let d := doy - (153 * mp + 2) / 5 + 1 in
  let m := if (mp <? 10)%Z then mp + 3 else mp - 9 in
  let y := yoe + era * 400 + (if (m <=? 2)%Z then 1 else 0) in
  (y, m, d).

Definition digit (z : Z) : ascii := ascii_of_N (Z.to_N (48 + z mod 10)).

(** The [n] low decimal digits of a non-negative [z], zero padded. *)
Fixpoint pad (n : nat) (z : Z) (acc : string) : string :=
  match n with
  | O => acc
  | S n' => pad n' (z / 10) (String (digit z) acc)
  end.

Definition year_string (y : Z) : string :=
  if ((0 <=? y) && (y <=? 9999))%Z then pad 4 y ""
  else if (y <? 0)%Z then "-" ++ pad 6 (- y) ""
  else "+" ++ pad 6 y "".

Definition format (t : Z) : string :=
  let days := t / msPerDay in
  let ms := t mod msPerDay in
  let '(y, m, d) := civil days in
  year_string y ++ "-" ++ pad 2 m "" ++ "-" ++ pad 2 d "" ++ "T"
    ++ pad 2 (ms / 3600000) "" ++ ":" ++ pad 2 (ms / 60000 mod 60) "" ++ ":"
    ++ pad 2 (ms / 1000 mod 60) "" ++ "." ++ pad 3 (ms mod 1000) "" ++ "Z".

(** [None] stands for the RangeError of an invalid date. *)
Definition toISOString (t : JsNum) : option string :=
  format <$> TimeClip t.

End Date.

(** ** The shared dictionary, the clock and the host objects *)

(** What a [js_shared_dict_zone] holds: a string or a number. *)
Inductive Stored : Type :=
  | SNum (n : JsNum)
  | SStr (s : string).

Definition val_of (v : Stored) : JsVal :=
  match v with
  | SNum n => VNum n
  | SStr s => VStr s
  end.

(** An entry: the value and the ttl of the [set] that wrote it. *)
Record Entry : Type := mkEntry { value : Stored; ttl : JsNum }.

Inductive Exn : Type :=
  | TypeError
  | RangeError.

Inductive Decision : Type :=
  | Allow
  | Deny.

(** What a handler leaves on its request [r] or session [s]. *)
Record Output : Type := mkOutput {
  logs : list string;
  errors : list string;
  returned : option (Z * string);
  headersOut : gmap string string;
  decisions : list Decision
}.

Definition silent : Output :=
  {| logs := []; errors := []; returned := None; headersOut := ∅;
     decisions := [] |}.

(** The order in which [keys()] enumerates: some arrangement of the keys,
    each key once.  A [Map] enumerates in insertion order, the shared
    dictionary of njs in an order of its own; neither is a function of the
    content, so the order is a parameter of the world. *)
Record KeyOrder : Type := mkKeyOrder {
  arrange : list string → list string;
  arrange_perm : ∀ l, arrange l ≡ₚ l
}.

Definition natural : KeyOrder :=
  {| arrange := λ l, l; arrange_perm := λ l, Permutation_refl l |}.

Record World : Type := mkWorld {
  whiteList : option (gmap string Entry);
  order : KeyOrder;
  clock : nat → Z;
  ticks : nat;
  out : Output
}.

Definition with_store (d : option (gmap string Entry)) (w : World) : World :=
  {| whiteList := d; order := order w; clock := clock w; ticks := ticks w;
     out := out w |}.

Definition with_out (o : Output) (w : World) : World :=
  {| whiteList := whiteList w; order := order w; clock := clock w;
     ticks := ticks w; out := o |}.

Definition tick (w : World) : World :=
  {| whiteList := whiteList w; order := order w; clock := clock w;
     ticks := S (ticks w); out := out w |}.

(** The incoming request or session, as far as the handlers read it.
    [vshield_user] is [r.variables.vshield_user], which the tests set. *)
Record Request : Type := mkRequest {
  remoteAddress : option string;
  args_ip : option string;
  args_timeout : option string;
  vshield_user : option string
}.

(** ** The monad of handlers: state and exceptions *)

Inductive Outcome (A : Type) : Type :=
  | Ok (a : A) (w : World)
  | Throw (e : Exn) (w : World).
Arguments Ok {A} a w.
Arguments Throw {A} e w.

Definition JS (A : Type) : Type := World → Outcome A.

Definition ret {A : Type} (a : A) : JS A := fun w => Ok a w.

Global Instance JS_ret : MRet JS := @ret.

Global Instance JS_bind : MBind JS := fun A B (k : A → JS B) (m : JS A) w =>
  match m w with
  | Ok a w' => k a w'
  | Throw e w' => Throw e w'
  end.

(** The world a computation ends in, whether it returns or throws. *)
Definition world_of {A} (o : Outcome A) : World :=
  match o with Ok _ w | Throw _ w => w end.

Definition result_of {A} (o : Outcome A) : option A :=
  match o with Ok a _ => Some a | Throw _ _ => None end.

(** [Date.now()]. *)
Definition Date_now : JS Z := fun w => Ok (clock w (ticks w)) (tick w).

Module Dict.

(** [whiteList.get(key)]; a call on the missing dictionary is a TypeError. *)
Definition get (key : string) : JS JsVal := fun w =>
  match whiteList w with
  | None => Throw TypeError w
  | Some d => Ok (from_option (val_of ∘ value) VUndefined (d !! key)) w
  end.

(** [whiteList.set(key, value, ttl)]. *)
Definition set (key : string) (v : Stored) (t : JsNum) : JS unit := fun w =>
  match whiteList w with
  | None => Throw TypeError w
  | Some d => Ok tt (with_store (Some (<[key := mkEntry v t]> d)) w)
  end.

(** [whiteList.delete(key)]. *)
Definition delete (key : string) : JS unit := fun w =>
  match whiteList w with
  | None => Throw TypeError w
  | Some d => Ok tt (with_store (Some (base.delete key d)) w)
  end.

(** [whiteList.keys()]: a snapshot of the keys, in the order of the world. *)
Definition keys : JS (list string) := fun w =>
  match whiteList w with
  | None => Throw TypeError w
  | Some d => Ok (arrange (order w) (fst <$> map_to_list d)) w
  end.

End Dict.

(** The four ways a handler writes on its request or session. *)
Definition add_log (msg : string) (o : Output) : Output :=
  {| logs := logs o ++ [msg]; errors := errors o; returned := returned o;
     headersOut := headersOut o; decisions := decisions o |}.

Definition add_error (msg : string) (o : Output) : Output :=
  {| logs := logs o; errors := errors o ++ [msg]; returned := returned o;
     headersOut := headersOut o; decisions := decisions o |}.

Definition set_returned (status : Z) (body : string) (o : Output) : Output :=
  {| logs := logs o; errors := errors o; returned := Some (status, body);
     headersOut := headersOut o; decisions := decisions o |}.

Definition add_decision (x : Decision) (o : Output) : Output :=
  {| logs := logs o; errors := errors o; returned := returned o;
     headersOut := headersOut o; decisions := decisions o ++ [x] |}.

Module Host.

Definition log (msg : string) : JS unit := fun w =>
  Ok tt (with_out (add_log msg (out w)) w).

Definition error (msg : string) : JS unit := fun w =>
  Ok tt (with_out (add_error msg (out w)) w).

(** [r.return(status, body)]. *)
Definition return_ (status : Z) (body : string) : JS unit := fun w =>
  Ok tt (with_out (set_returned status body (out w)) w).

(** [r.headersOut[name] = v]. *)
Definition setHeader (name v : string) : JS unit := fun w =>
  let o := out w in
  Ok tt (with_out {| logs := logs o; errors := errors o;
                     returned := returned o;
                     headersOut := <[name := v]> (headersOut o);
                     decisions := decisions o |} w).

(** [s.allow()] and [s.deny()]. *)
Definition allow : JS unit := fun w =>
  Ok tt (with_out (add_decision Allow (out w)) w).
Definition deny : JS unit := fun w =>
  Ok tt (with_out (add_decision Deny (out w)) w).

End Host.

(** [`${v}`] for an address that may be [undefined]. *)
Definition show (v : option string) : string :=
  match v with
  | Some s => s
  | None => "undefined"
  end.

(** The truthy value of an address: a non-empty string. *)
Definition truthy (v : option string) : option string :=
  match v with
  | Some EmptyString | None => None
  | Some s => Some s
  end.

Definition arg_val (v : option string) : JsVal :=
  match v with
  | Some s => VStr s
  | None => VUndefined
  end.

(** ** [VShield.js] *)

Definition DEFAULT_TTL_MS : Z := 120 * 60 * 1000.
Definition TTL_REFRESH_THRESHOLD_MS : Z := 60 * 60 * 1000.

Definition isPositiveInteger (n : JsNum) : bool :=
  Num.isInteger n && Num.gt n (num_of_Z 0).

Definition parseTtlMs (rawTtl : JsVal) : JsNum :=
  let parsed := Number rawTtl in
  if isPositiveInteger parsed then parsed else num_of_Z DEFAULT_TTL_MS.

Definition ensureStore : JS bool := fun w =>
  Ok (bool_decide (is_Some (whiteList w))) w.

Definition storeIP (ip : string) (ttlMs : JsVal) : JS unit :=
  now ← Date_now;
  let safeTtlMs := parseTtlMs ttlMs in
  Dict.set ip (SNum (Num.add (num_of_Z now) safeTtlMs)) safeTtlMs.

Definition isAllowed (ip : option string) : JS bool :=
  match truthy ip with
  | None => ret false
  | Some a =>
      configured ← ensureStore;
      if negb configured then ret false else
      expireAtRaw ← Dict.get a;
      match expireAtRaw with
      | VUndefined => ret false
      | _ =>
          let expireAt := Number expireAtRaw in
          if Num.isNaN expireAt then Dict.delete a;; ret false else
          now ← Date_now;
          if Num.le expireAt (num_of_Z now) then Dict.delete a;; ret false else
          (if Num.le (Num.sub expireAt (num_of_Z now))
                     (num_of_Z TTL_REFRESH_THRESHOLD_MS)
           then storeIP a (VNum (num_of_Z DEFAULT_TTL_MS))
           else ret tt);;
          ret true
      end
  end.

Definition http_verify (r : Request) : JS unit :=
  configured ← ensureStore;
  if negb configured then
    Host.error "vs_ip shared dict is not configured";;
    Host.return_ 500 "VShield storage is not configured"
  else
    let clientIP := remoteAddress r in
    allowed ← isAllowed clientIP;
    if (allowed : bool) then
      Host.log ("http_verify allowed IP address: " ++ show clientIP);;
      Host.return_ 200 "OK"
    else
      Host.error ("http_verify denied IP address: " ++ show clientIP);;
      Host.return_ 403 "Forbidden".

Definition stream_verify (s : Request) : JS unit :=
  configured ← ensureStore;
  if negb configured then
    Host.error "vs_ip shared dict is not configured";;
    Host.deny
  else
    let clientIP := remoteAddress s in
    allowed ← isAllowed clientIP;
    if (allowed : bool) then
      Host.log ("stream_verify allowed IP address: " ++ show clientIP);;
      Host.allow
    else
      Host.error ("stream_verify denied IP address: " ++ show clientIP);;
      Host.deny.

Definition register (r : Request) : JS unit :=
  configured ← ensureStore;
  if negb configured then
    Host.return_ 500 "VShield storage is not configured"
  else
    match truthy (remoteAddress r) with
    | None => Host.return_ 400 "Missing client IP"
    | Some clientIP =>
        storeIP clientIP (VNum (num_of_Z DEFAULT_TTL_MS));;
        Host.return_ 200 (clientIP ++ " is registered")
    end.

Definition cancel (r : Request) : JS unit :=
  configured ← ensureStore;
  if negb configured then
    Host.return_ 500 "VShield storage is not configured"
  else
    match truthy (remoteAddress r) with
    | None => Host.return_ 400 "Missing client IP"
    | Some clientIP =>
        Dict.delete clientIP;;
        Host.return_ 200 (clientIP ++ " is unregistered")
    end.

(** One element of the array that [adminWhiteList] builds. *)
Record Row : Type := mkRow { ip : string; expireAt : string }.

Module JSON.

Definition quote : ascii := ascii_of_N 34.
Definition backslash : ascii := ascii_of_N 92.

Definition hex (n : N) : ascii :=
  ascii_of_N (if (n <? 10)%N then 48 + n else 87 + n).

(** The escape of one character inside a JSON string. *)
Definition escape_char (c : ascii) : string :=
  let n := N_of_ascii c in
  if (n =? 34)%N then String backslash (String quote "")
  else if (n =? 92)%N then String backslash (String backslash "")
  else if (n =? 8)%N then String backslash "b"
  else if (n =? 12)%N then String backslash "f"
  else if (n =? 10)%N then String backslash "n"
  else if (n =? 13)%N then String backslash "r"
  else if (n =? 9)%N then String backslash "t"
  else if (n <? 32)%N then
    String backslash ("u00" ++ String (hex (n / 16)) (String (hex (n mod 16)) ""))
  else String c "".

Fixpoint escape (s : string) : string :=
  match s with
  | EmptyString => EmptyString
  | String c s' => escape_char c ++ escape s'
  end.

Definition str (s : string) : string :=
  String quote (escape s) ++ String quote "".

Definition row (x : Row) : string :=
  "{" ++ str "ip" ++ ":" ++ str (ip x) ++ ","
      ++ str "expireAt" ++ ":" ++ str (expireAt x) ++ "}".

Fixpoint rows (l : list Row) : string :=
  match l with
  | [] => ""
  | [x] => row x
  | x :: l' => row x ++ "," ++ rows l'
  end.

(** [JSON.stringify] of an array of rows. *)
Definition stringify (l : list Row) : string := "[" ++ rows l ++ "]".

End JSON.

(** The body of the [for (const ip of whiteList.keys())] loop, threaded
    through the array [result]. *)
Definition list_step (result : list Row) (key : string) : JS (list Row) :=
  raw ← Dict.get key;
  let expireAt := Number raw in
  if Num.isNaN expireAt then ret result else
  match Date.toISOString expireAt with
  | None => fun w => Throw RangeError w
  | Some iso => ret (result ++ [mkRow key iso])%list
  end.

Fixpoint list_loop (keys : list string) (result : list Row) : JS (list Row) :=
  match keys with
  | [] => ret result
  | key :: rest => result' ← list_step result key; list_loop rest result'
  end.

Definition adminWhiteList (r : Request) : JS unit :=
  configured ← ensureStore;
  if negb configured then
    Host.return_ 500 "VShield storage is not configured"
  else
    keys ← Dict.keys;
    result ← list_loop keys [];
    Host.setHeader "Content-Type" "application/json; charset=utf-8";;
    Host.return_ 200 (JSON.stringify result).

Definition adminRegister (r : Request) : JS unit :=
  configured ← ensureStore;
  if negb configured then
    Host.return_ 500 "VShield storage is not configured"
  else
    match truthy (args_ip r) with
    | None => Host.return_ 400 "Missing query parameter: ip"
    | Some clientIP =>
        let ttlMs := parseTtlMs (arg_val (args_timeout r)) in
        storeIP clientIP (VNum ttlMs);;
        Host.return_ 200 (clientIP ++ " is registered")
    end.

Definition adminCancel (r : Request) : JS unit :=
  configured ← ensureStore;
  if negb configured then
    Host.return_ 500 "VShield storage is not configured"
  else
    match truthy (args_ip r) with
    | None => Host.return_ 400 "Missing query parameter: ip"
    | Some clientIP =>
        Dict.delete clientIP;;
        Host.return_ 200 (clientIP ++ " is unregistered")
    end.

(** ** Running a handler *)

Definition fixed_clock (t : Z) : nat → Z := fun _ => t.

(** A world with dictionary [d], a clock, keys enumerated as the map has
    them and nothing yet written on the host object. *)
Definition world (d : option (gmap string Entry)) (c : nat → Z) : World :=
  {| whiteList := d; order := natural; clock := c; ticks := O; out := silent |}.

(** The dictionary a computation leaves behind. *)
Definition store_after {A} (o : Outcome A) : option (gmap string Entry) :=
  whiteList (world_of o).

(** What the dictionary holds for [a] after a computation. *)
Definition entry_after {A} (o : Outcome A) (a : string) : option Entry :=
  d ← store_after o; d !! a.

(** ** The admin console: [esc] *)

Module AdminUI.

(** The character class of the replace: ampersand, the two angle brackets,
    the double quote and the apostrophe. *)
Definition special (c : ascii) : bool :=
  bool_decide (c = "&"%char) || bool_decide (c = "<"%char)
  || bool_decide (c = ">"%char) || bool_decide (c = JSON.quote)
  || bool_decide (c = "'"%char).

(** The callback of the replace, on one matched character. *)
Definition entity (c : ascii) : string :=
  if bool_decide (c = "&"%char) then "&amp;"
  else if bool_decide (c = "<"%char) then "&lt;"
  else if bool_decide (c = ">"%char) then "&gt;"
  else if bool_decide (c = JSON.quote) then "&quot;"
  else "&#39;".

(** The global replace of every character of the class by its entity. *)
Fixpoint replace_special (s : string) : string :=
  match s with
  | EmptyString => EmptyString
  | String c s' =>
      (if special c then entity c else String c EmptyString)
        ++ replace_special s'
  end.

(** [esc(v)] for [v] a string or [undefined]: the string that is escaped
    is [v] itself, or the empty string when [v] is falsy. *)
Definition esc (v : option string) : string :=
  replace_special (default "" v).

End AdminUI.

(** ** The vocabulary of the statements *)

(** The instant the test suite freezes the clock at. *)
Definition T0 : Z := 1700000000000.

(** The ttl in milliseconds that [parseTtlMs] settles on, as an integer. *)
Definition ttl_ms (rawTtl : JsVal) : Z :=
  match parseTtlMs rawTtl with
  | Fin q => Qnum (this q)
  | _ => 0
  end.

(** The entry that a write at instant [now] with ttl [t] leaves. *)
Definition written (now t : Z) : Entry :=
  mkEntry (SNum (num_of_Z (now + t))) (num_of_Z t).




(** An entry written at instant [now]: for some positive integer ttl [t] its
    value is [now + t] and the ttl handed to the dictionary is [t]. *)
Definition consistent_at (now : Z) (e : Entry) : Prop :=
  ∃ t, 0 < t ∧ value e = SNum (num_of_Z (now + t)) ∧ ttl e = num_of_Z t.

(** The shape of every outcome of [isAllowed] on a configured dictionary:
    it returns, and the dictionary it leaves is the old one, the old one
    without [a], or the old one with [a] freshly written. *)
Inductive check_outcome (w : World) (d : gmap string Entry) (ip : option string)
  : Outcome bool → Prop :=
  | check_falsy :
      truthy ip = None → check_outcome w d ip (Ok false w)
  | check_absent a :
      ip = Some a → a ≠ "" → d !! a = None →
      check_outcome w d ip (Ok false w)
  | check_corrupt a e :
      ip = Some a → a ≠ "" → d !! a = Some e →
      Number (val_of (value e)) = NaN →
      check_outcome w d ip (Ok false (with_store (Some (delete a d)) w))
  | check_expired a e :
      ip = Some a → a ≠ "" → d !! a = Some e →
      Num.le (Number (val_of (value e))) (num_of_Z (clock w (ticks w))) = true →
      check_outcome w d ip (Ok false (with_store (Some (delete a d)) (tick w)))
  | check_renewed a e :
      ip = Some a → a ≠ "" → d !! a = Some e →
      Num.le (Number (val_of (value e))) (num_of_Z (clock w (ticks w))) = false →
      check_outcome w d ip
        (Ok true (with_store
                    (Some (<[a := written (clock w (S (ticks w))) DEFAULT_TTL_MS]> d))
                    (tick (tick w))))
  | check_kept a e :
      ip = Some a → a ≠ "" → d !! a = Some e →
      Num.le (Number (val_of (value e))) (num_of_Z (clock w (ticks w))) = false →
      check_outcome w d ip (Ok true (tick w)).

(** A response that exposes the reason [code] in some header. *)
Definition reason_exposed (code : string) (o : Output) : Prop :=
  ∃ name, headersOut o !! name = Some code.

(** The status of the response, if one was sent. *)
Definition status (o : Output) : option Z := fst <$> returned o.

(** The row of one entry: none for a value that is not a number. *)
Definition row_of (k : string) (e : Entry) : option Row :=
  let x := Number (val_of (value e)) in
  if Num.isNaN x then None else mkRow k <$> Date.toISOString x.

(** The rows of the keys [ks], in their order. *)
Definition listing (ks : list string) (d : gmap string Entry) : list Row :=
  omap (λ k, d !! k ≫= row_of k) ks.

(** The keys of [d] as the world [w] enumerates them. *)
Definition keys_of (w : World) (d : gmap string Entry) : list string :=
  arrange (order w) ((map_to_list d).*1).

(** Every numeric value of the dictionary is an instant that [Date] can
    render. *)
Definition renderable (d : gmap string Entry) : Prop :=
  ∀ k e, d !! k = Some e →
    Num.isNaN (Number (val_of (value e))) = false →
    is_Some (Date.toISOString (Number (val_of (value e)))).

(** An entry that stops the listing: a number that [Date] cannot render. *)
Definition unrenderable (e : Entry) : Prop :=
  Num.isNaN (Number (val_of (value e))) = false
  ∧ Date.toISOString (Number (val_of (value e))) = None.

(** ** Requests in sequence *)

(** The entry points that the module exports, each with its request. *)
Inductive Call : Type :=
  | Http_verify (r : Request)
  | Stream_verify (s : Request)
  | Register (r : Request)
  | Cancel (r : Request)
  | AdminWhiteList (r : Request)
  | AdminRegister (r : Request)
  | AdminCancel (r : Request).

Definition handle (c : Call) : JS unit :=
  match c with
  | Http_verify r => http_verify r
  | Stream_verify s => stream_verify s
  | Register r => register r
  | Cancel r => cancel r
  | AdminWhiteList r => adminWhiteList r
  | AdminRegister r => adminRegister r
  | AdminCancel r => adminCancel r
  end.

(** The world after the calls of [cs], one after the other; a call that
    throws ends there and the next one starts from the world it left. *)
Fixpoint serve (cs : list Call) (w : World) : World :=
  match cs with
  | [] => w
  | c :: cs' => serve cs' (world_of (handle c w))
  end.

(** An entry as [storeIP] writes it, at some instant. *)
Definition sound (e : Entry) : Prop := ∃ now, consistent_at now e.

(** What one call can do to the dictionary: every entry it leaves was there
    before or is one that [storeIP] wrote. *)
Definition grows_soundly (d d' : gmap string Entry) : Prop :=
  ∀ k e, d' !! k = Some e → d !! k = Some e ∨ sound e.

(** * Properties *)

Local Open Scope Z_scope.

(** ** Numbers *)

Lemma isInteger_of_Z z : Num.isInteger (num_of_Z z) = true.
Proof. by apply bool_decide_eq_true. Qed.

(** An integer-valued number is the image of its numerator. *)
Lemma isInteger_inv n :
  Num.isInteger n = true → ∃ z, n = num_of_Z z.
Proof.
  destruct n as [| |[[a b] Hq]]; simpl; try discriminate.
  intros H%bool_decide_eq_true. simpl in H. subst b.
  exists a. unfold num_of_Z. f_equal. by apply Qc_is_canon.
Qed.

Lemma gt_of_Z a b : Num.gt (num_of_Z a) (num_of_Z b) = bool_decide (b < a).
Proof. simpl. apply bool_decide_ext. symmetry. apply Z2Qc_inj_lt. Qed.

Lemma le_of_Z a b : Num.le (num_of_Z a) (num_of_Z b) = bool_decide (a ≤ b).
Proof. simpl. apply bool_decide_ext. symmetry. apply Z2Qc_inj_le. Qed.

Lemma add_of_Z a b : Num.add (num_of_Z a) (num_of_Z b) = num_of_Z (a + b).
Proof. unfold num_of_Z; simpl. by rewrite Z2Qc_inj_add. Qed.

Lemma sub_of_Z a b : Num.sub (num_of_Z a) (num_of_Z b) = num_of_Z (a - b).
Proof. unfold num_of_Z; simpl. by rewrite Z2Qc_inj_sub. Qed.


Lemma isPositiveInteger_of_Z z :
  isPositiveInteger (num_of_Z z) = bool_decide (0 < z).
Proof. unfold isPositiveInteger. by rewrite isInteger_of_Z, gt_of_Z. Qed.

(** [isPositiveInteger] holds exactly of the positive integers. *)
Lemma isPositiveInteger_spec n :
  isPositiveInteger n = true ↔ ∃ z, 0 < z ∧ n = num_of_Z z.
Proof.
  split.
  - unfold isPositiveInteger. intros [Hi Hg]%andb_true_iff.
    destruct (isInteger_inv _ Hi) as [z ->]. exists z. split; [|done].
    rewrite gt_of_Z in Hg. by apply bool_decide_eq_true in Hg.
  - intros (z & Hz & ->). rewrite isPositiveInteger_of_Z.
    by apply bool_decide_eq_true.
Qed.

(** ** [parseTtlMs] *)

Lemma parseTtlMs_valid rawTtl z :
  0 < z → Number rawTtl = num_of_Z z → parseTtlMs rawTtl = num_of_Z z.
Proof.
  intros Hz Hn. unfold parseTtlMs. rewrite Hn, isPositiveInteger_of_Z.
  by rewrite bool_decide_eq_true_2.
Qed.

Lemma parseTtlMs_fallback rawTtl :
  isPositiveInteger (Number rawTtl) = false →
  parseTtlMs rawTtl = num_of_Z DEFAULT_TTL_MS.
Proof. intros H. unfold parseTtlMs. by rewrite H. Qed.

(** Whatever comes in, a positive integer comes out. *)
Lemma parseTtlMs_positive rawTtl :
  parseTtlMs rawTtl = num_of_Z (ttl_ms rawTtl) ∧ 0 < ttl_ms rawTtl.
Proof.
  unfold ttl_ms, parseTtlMs.
  destruct (isPositiveInteger (Number rawTtl)) eqn:E.
  - apply isPositiveInteger_spec in E as (z & Hz & ->). by simpl.
  - by simpl.
Qed.

Lemma parseTtlMs_idem rawTtl :
  parseTtlMs (VNum (parseTtlMs rawTtl)) = parseTtlMs rawTtl.
Proof.
  destruct (parseTtlMs_positive rawTtl) as [-> Hp].
  by apply parseTtlMs_valid.
Qed.

Lemma ttl_ms_valid rawTtl z :
  0 < z → Number rawTtl = num_of_Z z → ttl_ms rawTtl = z.
Proof.
  intros Hz Hn. unfold ttl_ms. by rewrite (parseTtlMs_valid _ z).
Qed.


(** ** One step at a time: the equations of the monad *)

Lemma bind_Ok {A B} (m : JS A) (k : A → JS B) w a w' :
  m w = Ok a w' → (m ≫= k) w = k a w'.
Proof. intros H. unfold mbind, JS_bind. by rewrite H. Qed.

(** Run the first computation of the bind in the goal, the side condition
    [m w = Ok _ _] being left to [tac]. *)
Tactic Notation "bind_with" tactic3(tac) :=
  match goal with
  | |- context [@mbind JS _ _ _ ?k ?m ?w] => erewrite (bind_Ok m k w) by tac
  end.

Lemma ensureStore_Some w d :
  whiteList w = Some d → ensureStore w = Ok true w.
Proof. intros H. unfold ensureStore. by rewrite H. Qed.

Lemma ensureStore_None w :
  whiteList w = None → ensureStore w = Ok false w.
Proof. intros H. unfold ensureStore. by rewrite H. Qed.

Lemma truthy_Some a : a ≠ "" → truthy (Some a) = Some a.
Proof. by destruct a. Qed.

Lemma truthy_inv v a : truthy v = Some a → v = Some a ∧ a ≠ "".
Proof. destruct v as [[|c s]|]; simpl; intros [= <-]; by split. Qed.

(** ** [storeIP] *)

Lemma set_run w d a v t :
  whiteList w = Some d →
  Dict.set a v t w = Ok tt (with_store (Some (<[a := mkEntry v t]> d)) w).
Proof. intros Hd. unfold Dict.set. by rewrite Hd. Qed.

Lemma delete_run w d a :
  whiteList w = Some d →
  Dict.delete a w = Ok tt (with_store (Some (delete a d)) w).
Proof. intros Hd. unfold Dict.delete. by rewrite Hd. Qed.

Lemma get_run w d a :
  whiteList w = Some d →
  Dict.get a w = Ok (from_option (val_of ∘ value) VUndefined (d !! a)) w.
Proof. intros Hd. unfold Dict.get. by rewrite Hd. Qed.

Lemma Date_now_run w : Date_now w = Ok (clock w (ticks w)) (tick w).
Proof. done. Qed.

Lemma storeIP_run w d a rawTtl :
  whiteList w = Some d →
  storeIP a rawTtl w =
    Ok tt (with_store
             (Some (<[a := written (clock w (ticks w)) (ttl_ms rawTtl)]> d))
             (tick w)).
Proof.
  intros Hd. unfold storeIP. bind_with (apply Date_now_run).
  destruct (parseTtlMs_positive rawTtl) as [-> _].
  rewrite add_of_Z. by apply set_run.
Qed.

(** ** [isAllowed], case by case *)

Section isAllowed_cases.

Variables (w : World) (d : gmap string Entry) (a : string).
Hypothesis Hstore : whiteList w = Some d.
Hypothesis Ha : a ≠ "".

Let now := clock w (ticks w).

Lemma isAllowed_absent :
  d !! a = None → isAllowed (Some a) w = Ok false w.
Proof.
  intros Hl. unfold isAllowed. rewrite truthy_Some by done.
  bind_with (by apply (ensureStore_Some _ d)).
  change (negb true) with false. cbv iota.
  bind_with (by apply (get_run _ d)). by rewrite Hl.
Qed.

Lemma isAllowed_present e :
  d !! a = Some e →
  isAllowed (Some a) w =
    (let expireAt := Number (val_of (value e)) in
     if Num.isNaN expireAt then Dict.delete a;; ret false else
     now ← Date_now;
     if Num.le expireAt (num_of_Z now) then Dict.delete a;; ret false else
     (if Num.le (Num.sub expireAt (num_of_Z now))
                (num_of_Z TTL_REFRESH_THRESHOLD_MS)
      then storeIP a (VNum (num_of_Z DEFAULT_TTL_MS))
      else ret tt);;
     ret true) w.
Proof.
  intros Hl. unfold isAllowed. rewrite truthy_Some by done.
  bind_with (by apply (ensureStore_Some _ d)).
  change (negb true) with false. cbv iota.
  bind_with (by apply (get_run _ d)). rewrite Hl.
  change (from_option (val_of ∘ value) VUndefined (Some e))
    with (val_of (value e)).
  by destruct (value e).
Qed.

Lemma isAllowed_corrupt e :
  d !! a = Some e → Number (val_of (value e)) = NaN →
  isAllowed (Some a) w = Ok false (with_store (Some (delete a d)) w).
Proof.
  intros Hl Hn. rewrite (isAllowed_present e Hl). cbv zeta. rewrite Hn.
  change (Num.isNaN NaN) with true. cbv iota.
  by bind_with (by apply (delete_run _ d)).
Qed.

Lemma isAllowed_expired e :
  d !! a = Some e →
  Num.isNaN (Number (val_of (value e))) = false →
  Num.le (Number (val_of (value e))) (num_of_Z now) = true →
  isAllowed (Some a) w = Ok false (with_store (Some (delete a d)) (tick w)).
Proof.
  intros Hl Hn Hle. rewrite (isAllowed_present e Hl). cbv zeta. rewrite Hn.
  bind_with (apply Date_now_run). fold now. rewrite Hle.
  by bind_with (by apply (delete_run _ d)).
Qed.

Lemma isAllowed_renew e :
  d !! a = Some e →
  Num.isNaN (Number (val_of (value e))) = false →
  Num.le (Number (val_of (value e))) (num_of_Z now) = false →
  Num.le (Num.sub (Number (val_of (value e))) (num_of_Z now))
         (num_of_Z TTL_REFRESH_THRESHOLD_MS) = true →
  isAllowed (Some a) w =
    Ok true (with_store
               (Some (<[a := written (clock w (S (ticks w))) DEFAULT_TTL_MS]> d))
               (tick (tick w))).
Proof.
  intros Hl Hn Hle Hth. rewrite (isAllowed_present e Hl). cbv zeta.
  rewrite Hn. bind_with (apply Date_now_run). fold now. rewrite Hle, Hth.
  bind_with (by apply (storeIP_run _ d)).
  by rewrite (ttl_ms_valid _ DEFAULT_TTL_MS).
Qed.

Lemma isAllowed_keep e :
  d !! a = Some e →
  Num.isNaN (Number (val_of (value e))) = false →
  Num.le (Number (val_of (value e))) (num_of_Z now) = false →
  Num.le (Num.sub (Number (val_of (value e))) (num_of_Z now))
         (num_of_Z TTL_REFRESH_THRESHOLD_MS) = false →
  isAllowed (Some a) w = Ok true (tick w).
Proof.
  intros Hl Hn Hle Hth. rewrite (isAllowed_present e Hl). cbv zeta.
  rewrite Hn. bind_with (apply Date_now_run). fold now. rewrite Hle, Hth.
  by bind_with (reflexivity).
Qed.

End isAllowed_cases.

(** ** Registration followed by checks *)

Lemma isNaN_of_Z z : Num.isNaN (num_of_Z z) = false.
Proof. done. Qed.

Lemma ttl_ms_of_Z z : 0 < z → ttl_ms (VNum (num_of_Z z)) = z.
Proof. intros Hz. by apply ttl_ms_valid. Qed.

(** A check of an address whose entry holds the integer instant [x]. *)
Lemma isAllowed_instant w d a e x :
  whiteList w = Some d → a ≠ "" → d !! a = Some e →
  Number (val_of (value e)) = num_of_Z x →
  let now := clock w (ticks w) in
  isAllowed (Some a) w =
    if bool_decide (x ≤ now) then
      Ok false (with_store (Some (delete a d)) (tick w))
    else if bool_decide (x - now ≤ TTL_REFRESH_THRESHOLD_MS) then
      Ok true (with_store
                 (Some (<[a := written (clock w (S (ticks w))) DEFAULT_TTL_MS]> d))
                 (tick (tick w)))
    else Ok true (tick w).
Proof.
  intros Hd Ha Hl Hx now.
  destruct (bool_decide (x ≤ now)) eqn:E1;
    [|destruct (bool_decide (x - now ≤ TTL_REFRESH_THRESHOLD_MS)) eqn:E2].
  - apply (isAllowed_expired w d a Hd Ha e Hl); rewrite Hx;
      [apply isNaN_of_Z | by rewrite le_of_Z].
  - apply (isAllowed_renew w d a Hd Ha e Hl); rewrite Hx;
      [apply isNaN_of_Z | by rewrite le_of_Z | by rewrite sub_of_Z, le_of_Z].
  - apply (isAllowed_keep w d a Hd Ha e Hl); rewrite Hx;
      [apply isNaN_of_Z | by rewrite le_of_Z | by rewrite sub_of_Z, le_of_Z].
Qed.



(** ** Renewal *)

Lemma le_Fin q z : Num.le (Fin q) (num_of_Z z) = bool_decide (q ≤ Qc_of_Z z)%Qc.
Proof. done. Qed.

Lemma sub_Fin q z : Num.sub (Fin q) (num_of_Z z) = Fin (q - Qc_of_Z z)%Qc.
Proof. done. Qed.

(** C2: an entry of [A] with [now < expiresAt] and
    [expiresAt - now <= 3,600,000] makes the check allow and rewrite the entry
    to the instant of the rewriting write plus 7,200,000, with ttl 7,200,000;
    for a check at one instant [T] that is [T + 7,200,000].  An entry with
    more than 3,600,000 left makes the check allow and leaves the dictionary
    as it is. *)
Theorem renewal_near_expiry (w : World) (d : gmap string Entry) (A : string)
    (e : Entry) (expiresAt : Qc) :
  whiteList w = Some d → A ≠ "" → d !! A = Some e →
  Number (val_of (value e)) = Fin expiresAt →
  let T := clock w (ticks w) in
  let check := isAllowed (Some A) w in
  ((Qc_of_Z T < expiresAt)%Qc →
   (expiresAt - Qc_of_Z T ≤ Qc_of_Z 3600000)%Qc →
   result_of check = Some true
   ∧ entry_after check A = Some (written (clock w (S (ticks w))) 7200000)
   ∧ (clock w (S (ticks w)) = T →
      entry_after check A
        = Some (mkEntry (SNum (num_of_Z (T + 7200000))) (num_of_Z 7200000))))
  ∧ ((Qc_of_Z 3600000 < expiresAt - Qc_of_Z T)%Qc →
     result_of check = Some true ∧ store_after check = Some d).
Proof.
  intros Hd HA Hl Hn T check. subst check. split.
  - intros Hlive Hnear.
    rewrite (isAllowed_renew w d A Hd HA e Hl); rewrite ?Hn; try done.
    + split; [done|]. unfold entry_after, store_after. cbn.
      rewrite lookup_insert_eq. split; [done|]. by intros ->.
    + rewrite le_Fin. apply bool_decide_eq_false_2. by apply Qclt_not_le.
    + rewrite sub_Fin. by apply bool_decide_eq_true_2.
  - intros Hfar.
    assert (Hlive : (Qc_of_Z T < expiresAt)%Qc).
    { apply Qclt_minus_iff. etrans; [|exact Hfar]. by apply (Z2Qc_inj_lt 0). }
    rewrite (isAllowed_keep w d A Hd HA e Hl); rewrite ?Hn; try done.
    + rewrite le_Fin. apply bool_decide_eq_false_2. by apply Qclt_not_le.
    + rewrite sub_Fin. apply bool_decide_eq_false_2. by apply Qclt_not_le.
Qed.

Lemma renewal_near_expiry_witness :
  let A := "203.0.113.10"%string in
  let near : gmap string Entry :=
    {[ A := mkEntry (SNum (num_of_Z (T0 + 1000))) (num_of_Z 1000) ]} in
  let far : gmap string Entry :=
    {[ A := mkEntry (SNum (num_of_Z (T0 + 10000000))) (num_of_Z 10000000) ]} in
  (result_of (isAllowed (Some A) (world (Some near) (fixed_clock T0))) = Some true
   ∧ entry_after (isAllowed (Some A) (world (Some near) (fixed_clock T0))) A
     = Some (mkEntry (SNum (num_of_Z (T0 + 7200000))) (num_of_Z 7200000)))
  ∧ store_after (isAllowed (Some A) (world (Some far) (fixed_clock T0)))
    = Some far.
Proof.
  intros A near far. split.
  - destruct (renewal_near_expiry (world (Some near) (fixed_clock T0)) near A
                _ (Qc_of_Z (T0 + 1000)) eq_refl ltac:(discriminate)
                (lookup_singleton_eq _ _) eq_refl) as [Hrenew _].
    destruct Hrenew as (Hres & _ & Hentry).
    + vm_compute; reflexivity.
    + vm_compute; discriminate.
    + split; [exact Hres | apply Hentry; reflexivity].
  - destruct (renewal_near_expiry (world (Some far) (fixed_clock T0)) far A
                _ (Qc_of_Z (T0 + 10000000)) eq_refl ltac:(discriminate)
                (lookup_singleton_eq _ _) eq_refl) as [_ Hkeep].
    apply Hkeep. vm_compute; reflexivity.
Defined.

(** ** What a check can do to the world *)

Lemma isNaN_true n : Num.isNaN n = true → n = NaN.
Proof. by destruct n. Qed.

Lemma isAllowed_falsy w ip : truthy ip = None → isAllowed ip w = Ok false w.
Proof. intros H. unfold isAllowed. by rewrite H. Qed.

Lemma isAllowed_outcome w d ip :
  whiteList w = Some d → check_outcome w d ip (isAllowed ip w).
Proof.
  intros Hd. destruct (truthy ip) as [a|] eqn:Hip.
  - apply truthy_inv in Hip as [-> Ha].
    destruct (d !! a) as [e|] eqn:Hl.
    + destruct (Num.isNaN (Number (val_of (value e)))) eqn:E1.
      { rewrite (isAllowed_corrupt w d a Hd Ha e Hl) by by apply isNaN_true.
        eapply check_corrupt; eauto using isNaN_true. }
      destruct (Num.le (Number (val_of (value e)))
                  (num_of_Z (clock w (ticks w)))) eqn:E2.
      { rewrite (isAllowed_expired w d a Hd Ha e Hl) by done.
        by eapply check_expired. }
      destruct (Num.le (Num.sub (Number (val_of (value e)))
                                (num_of_Z (clock w (ticks w))))
                  (num_of_Z TTL_REFRESH_THRESHOLD_MS)) eqn:E3.
      * rewrite (isAllowed_renew w d a Hd Ha e Hl) by done.
        by eapply check_renewed.
      * rewrite (isAllowed_keep w d a Hd Ha e Hl) by done.
        by eapply check_kept.
    + rewrite (isAllowed_absent w d a Hd Ha Hl). by eapply check_absent.
  - rewrite isAllowed_falsy by done. by apply check_falsy.
Qed.

(** A check returns, writes nothing on the host object and keeps the
    dictionary configured. *)
Lemma isAllowed_total w d ip :
  whiteList w = Some d →
  ∃ b w', isAllowed ip w = Ok b w' ∧ out w' = out w
          ∧ is_Some (whiteList w').
Proof.
  intros Hd. destruct (isAllowed_outcome w d ip Hd);
    eexists _, _; (split; [reflexivity|]); cbn; rewrite ?Hd; eauto.
Qed.

(** ** The two gates *)

Lemma http_verify_unconfigured r w :
  whiteList w = None →
  http_verify r w =
    Ok tt (with_out
             (set_returned 500 "VShield storage is not configured"
                (add_error "vs_ip shared dict is not configured" (out w))) w).
Proof.
  intros Hn. unfold http_verify. bind_with (by apply ensureStore_None).
  done.
Qed.

Lemma http_verify_configured r w d b w' :
  whiteList w = Some d → isAllowed (remoteAddress r) w = Ok b w' →
  http_verify r w =
    Ok tt (with_out
             (if b then
                set_returned 200 "OK"
                  (add_log ("http_verify allowed IP address: "
                              ++ show (remoteAddress r)) (out w'))
              else
                set_returned 403 "Forbidden"
                  (add_error ("http_verify denied IP address: "
                                ++ show (remoteAddress r)) (out w'))) w').
Proof.
  intros Hd Hc. unfold http_verify.
  bind_with (by apply (ensureStore_Some _ d)).
  change (negb true) with false. cbv iota zeta.
  bind_with (exact Hc). by destruct b.
Qed.

Lemma stream_verify_unconfigured s w :
  whiteList w = None →
  stream_verify s w =
    Ok tt (with_out
             (add_decision Deny
                (add_error "vs_ip shared dict is not configured" (out w))) w).
Proof.
  intros Hn. unfold stream_verify. bind_with (by apply ensureStore_None).
  done.
Qed.

Lemma stream_verify_configured s w d b w' :
  whiteList w = Some d → isAllowed (remoteAddress s) w = Ok b w' →
  stream_verify s w =
    Ok tt (with_out
             (if b then
                add_decision Allow
                  (add_log ("stream_verify allowed IP address: "
                              ++ show (remoteAddress s)) (out w'))
              else
                add_decision Deny
                  (add_error ("stream_verify denied IP address: "
                                ++ show (remoteAddress s)) (out w'))) w').
Proof.
  intros Hd Hc. unfold stream_verify.
  bind_with (by apply (ensureStore_Some _ d)).
  change (negb true) with false. cbv iota zeta.
  bind_with (exact Hc). by destruct b.
Qed.

(** Neither gate touches the response headers. *)
Lemma http_verify_headers r w :
  headersOut (out (world_of (http_verify r w))) = headersOut (out w).
Proof.
  destruct (whiteList w) as [d|] eqn:Hd.
  - destruct (isAllowed_total w d (remoteAddress r) Hd) as (b & w' & Hc & Ho & _).
    rewrite (http_verify_configured r w d b w' Hd Hc). cbn.
    destruct b; cbn; by rewrite Ho.
  - by rewrite http_verify_unconfigured.
Qed.

(** ** Failing closed *)

(** C5, as the code has it: when the address is empty or the dictionary is
    not configured no check allows and the dictionary is left as it was;
    the connection gate denies, the request gate answers 403 on an empty
    address and 500 on a missing dictionary. *)
Theorem checks_fail_closed (r : Request) (w : World) :
  truthy (remoteAddress r) = None ∨ whiteList w = None →
  let http := http_verify r w in
  let stream := stream_verify r w in
  returned (out (world_of http))
    = Some (match whiteList w with
            | Some _ => (403, "Forbidden")
            | None => (500, "VShield storage is not configured")
            end)
  ∧ decisions (out (world_of stream)) = (decisions (out w) ++ [Deny])%list
  ∧ logs (out (world_of http)) = logs (out w)
  ∧ logs (out (world_of stream)) = logs (out w)
  ∧ store_after http = whiteList w
  ∧ store_after stream = whiteList w.
Proof.
  intros H http stream. subst http stream.
  destruct (whiteList w) as [d|] eqn:Hd.
  - destruct H as [H|H]; [|done].
    rewrite (http_verify_configured r w d false w Hd (isAllowed_falsy w _ H)).
    rewrite (stream_verify_configured r w d false w Hd (isAllowed_falsy w _ H)).
    unfold store_after. by cbn.
  - rewrite http_verify_unconfigured, stream_verify_unconfigured by done.
    unfold store_after. by cbn.
Qed.

Lemma checks_fail_closed_witness :
  status (out (world_of (http_verify (mkRequest (Some "") None None None)
                           (world (Some ∅) (fixed_clock T0))))) = Some 403
  ∧ status (out (world_of (http_verify (mkRequest (Some "203.0.113.10") None None None)
                             (world None (fixed_clock T0))))) = Some 500.
Proof.
  split.
  - pose proof (checks_fail_closed (mkRequest (Some "") None None None)
                  (world (Some ∅) (fixed_clock T0)) (or_introl eq_refl)) as [H _].
    unfold status. by rewrite H.
  - pose proof (checks_fail_closed (mkRequest (Some "203.0.113.10") None None None)
                  (world None (fixed_clock T0)) (or_intror eq_refl)) as [H _].
    unfold status. by rewrite H.
Defined.

(** With the dictionary missing the request gate answers 500 and sets no
    header, so no reason [STORE_UNAVAILABLE] reaches the caller. *)
Lemma fail_closed_reason_counterexample :
  let o := out (world_of (http_verify (mkRequest (Some "203.0.113.10") None None None)
                            (world None (fixed_clock T0)))) in
  o = {| logs := []; errors := ["vs_ip shared dict is not configured"];
         returned := Some (500, "VShield storage is not configured");
         headersOut := ∅; decisions := [] |}
  ∧ ¬ reason_exposed "STORE_UNAVAILABLE" o.
Proof.
  split; [reflexivity|]. intros [name H]. by rewrite http_verify_headers in H.
Qed.

(** ** The mutating handlers *)

Section mutations.

Variables (r : Request) (w : World).

Let unconfigured : Outcome unit :=
  Ok tt (with_out (set_returned 500 "VShield storage is not configured" (out w)) w).

Lemma register_unconfigured : whiteList w = None → register r w = unconfigured.
Proof.
  intros Hn. unfold register. by bind_with (by apply ensureStore_None).
Qed.

Lemma cancel_unconfigured : whiteList w = None → cancel r w = unconfigured.
Proof.
  intros Hn. unfold cancel. by bind_with (by apply ensureStore_None).
Qed.

Lemma adminRegister_unconfigured :
  whiteList w = None → adminRegister r w = unconfigured.
Proof.
  intros Hn. unfold adminRegister. by bind_with (by apply ensureStore_None).
Qed.

Lemma adminCancel_unconfigured :
  whiteList w = None → adminCancel r w = unconfigured.
Proof.
  intros Hn. unfold adminCancel. by bind_with (by apply ensureStore_None).
Qed.

Variable d : gmap string Entry.
Hypothesis Hd : whiteList w = Some d.

Let now := clock w (ticks w).

Lemma register_missing :
  truthy (remoteAddress r) = None →
  register r w = Ok tt (with_out (set_returned 400 "Missing client IP" (out w)) w).
Proof.
  intros Ht. unfold register. bind_with (by apply (ensureStore_Some _ d)).
  change (negb true) with false. cbv iota. by rewrite Ht.
Qed.

Lemma register_run a :
  truthy (remoteAddress r) = Some a →
  register r w =
    Ok tt (with_out (set_returned 200 (a ++ " is registered") (out w))
             (with_store (Some (<[a := written now DEFAULT_TTL_MS]> d)) (tick w))).
Proof.
  intros Ht. unfold register. bind_with (by apply (ensureStore_Some _ d)).
  change (negb true) with false. cbv iota. rewrite Ht.
  bind_with (by apply (storeIP_run _ d)).
  by rewrite (ttl_ms_of_Z DEFAULT_TTL_MS).
Qed.

Lemma cancel_missing :
  truthy (remoteAddress r) = None →
  cancel r w = Ok tt (with_out (set_returned 400 "Missing client IP" (out w)) w).
Proof.
  intros Ht. unfold cancel. bind_with (by apply (ensureStore_Some _ d)).
  change (negb true) with false. cbv iota. by rewrite Ht.
Qed.

Lemma cancel_run a :
  truthy (remoteAddress r) = Some a →
  cancel r w =
    Ok tt (with_out (set_returned 200 (a ++ " is unregistered") (out w))
             (with_store (Some (delete a d)) w)).
Proof.
  intros Ht. unfold cancel. bind_with (by apply (ensureStore_Some _ d)).
  change (negb true) with false. cbv iota. rewrite Ht.
  by bind_with (by apply (delete_run _ d)).
Qed.

Lemma adminRegister_missing :
  truthy (args_ip r) = None →
  adminRegister r w =
    Ok tt (with_out (set_returned 400 "Missing query parameter: ip" (out w)) w).
Proof.
  intros Ht. unfold adminRegister. bind_with (by apply (ensureStore_Some _ d)).
  change (negb true) with false. cbv iota. by rewrite Ht.
Qed.

Lemma adminRegister_run a :
  truthy (args_ip r) = Some a →
  adminRegister r w =
    Ok tt (with_out (set_returned 200 (a ++ " is registered") (out w))
             (with_store
                (Some (<[a := written now (ttl_ms (arg_val (args_timeout r)))]> d))
                (tick w))).
Proof.
  intros Ht. unfold adminRegister. bind_with (by apply (ensureStore_Some _ d)).
  change (negb true) with false. cbv iota zeta. rewrite Ht.
  bind_with (by apply (storeIP_run _ d)).
  unfold ttl_ms at 1. by rewrite parseTtlMs_idem.
Qed.

Lemma adminCancel_missing :
  truthy (args_ip r) = None →
  adminCancel r w =
    Ok tt (with_out (set_returned 400 "Missing query parameter: ip" (out w)) w).
Proof.
  intros Ht. unfold adminCancel. bind_with (by apply (ensureStore_Some _ d)).
  change (negb true) with false. cbv iota. by rewrite Ht.
Qed.

Lemma adminCancel_run a :
  truthy (args_ip r) = Some a →
  adminCancel r w =
    Ok tt (with_out (set_returned 200 (a ++ " is unregistered") (out w))
             (with_store (Some (delete a d)) w)).
Proof.
  intros Ht. unfold adminCancel. bind_with (by apply (ensureStore_Some _ d)).
  change (negb true) with false. cbv iota. rewrite Ht.
  by bind_with (by apply (delete_run _ d)).
Qed.

End mutations.

(** ** Audit records and deny reasons *)

(** No mutating handler writes a line, whoever calls. *)
Lemma mutations_log_nothing (r : Request) (w : World) (h : Request → JS unit) :
  h ∈ [register; cancel; adminRegister; adminCancel] →
  logs (out (world_of (h r w))) = logs (out w)
  ∧ errors (out (world_of (h r w))) = errors (out w).
Proof.
  intros Hh. repeat (apply elem_of_cons in Hh as [->|Hh]);
    [| | | |by apply elem_of_nil in Hh].
  - destruct (whiteList w) as [d|] eqn:Hd; [|by rewrite register_unconfigured].
    destruct (truthy (remoteAddress r)) as [a|] eqn:Ht.
    + by rewrite (register_run r w d Hd a Ht).
    + by rewrite (register_missing r w d Hd Ht).
  - destruct (whiteList w) as [d|] eqn:Hd; [|by rewrite cancel_unconfigured].
    destruct (truthy (remoteAddress r)) as [a|] eqn:Ht.
    + by rewrite (cancel_run r w d Hd a Ht).
    + by rewrite (cancel_missing r w d Hd Ht).
  - destruct (whiteList w) as [d|] eqn:Hd; [|by rewrite adminRegister_unconfigured].
    destruct (truthy (args_ip r)) as [a|] eqn:Ht.
    + by rewrite (adminRegister_run r w d Hd a Ht).
    + by rewrite (adminRegister_missing r w d Hd Ht).
  - destruct (whiteList w) as [d|] eqn:Hd; [|by rewrite adminCancel_unconfigured].
    destruct (truthy (args_ip r)) as [a|] eqn:Ht.
    + by rewrite (adminCancel_run r w d Hd a Ht).
    + by rewrite (adminCancel_missing r w d Hd Ht).
Qed.

(** C3, on the input of the test "register should store current IP and
    write audit log": the handler answers 200 and stores the entry, but
    leaves no line at all on the request, so no record with [actor] and
    [action]; and an allowed check logs one line that names the address only. *)
Theorem register_leaves_no_audit_record :
  let alice := mkRequest (Some "203.0.113.10") None None (Some "alice@example.com") in
  let registered := world_of (register alice (world (Some ∅) (fixed_clock T0))) in
  out registered
    = {| logs := []; errors := [];
         returned := Some (200, "203.0.113.10 is registered");
         headersOut := ∅; decisions := [] |}
  ∧ out (world_of (http_verify alice (with_out silent registered)))
    = {| logs := ["http_verify allowed IP address: 203.0.113.10"]; errors := [];
         returned := Some (200, "OK"); headersOut := ∅; decisions := [] |}.
Proof. split; reflexivity. Qed.

(** C4, on the input of the test "http_verify should deny unregistered IP
    and set reason header": the answer is 403 with the body [Forbidden] and
    no header, so no reason is exposed. *)
Theorem deny_exposes_no_reason :
  let stranger := mkRequest (Some "198.51.100.20") None None None in
  let o := out (world_of (http_verify stranger (world (Some ∅) (fixed_clock T0)))) in
  o = {| logs := []; errors := ["http_verify denied IP address: 198.51.100.20"];
         returned := Some (403, "Forbidden"); headersOut := ∅; decisions := [] |}
  ∧ ¬ reason_exposed "IP_NOT_REGISTERED" o.
Proof.
  split; [reflexivity|]. intros [name H]. by rewrite http_verify_headers in H.
Qed.

(** ** The ttl of an admin registration *)





(** ** Stored instant and backing ttl agree *)

Lemma written_consistent now t : 0 < t → consistent_at now (written now t).
Proof. intros Ht. by exists t. Qed.



(** ** Cancellation *)

(** C9: with the dictionary configured and an address given, self cancel
    and admin cancel answer 200 whether or not the address has an entry;
    cancelling an absent address leaves the dictionary as it is, and
    cancelling twice leaves the dictionary that cancelling once leaves, in
    which the address is absent. *)
Theorem cancel_idempotent (h : Request → JS unit) (r : Request) (w : World)
    (d : gmap string Entry) (a : string) :
  whiteList w = Some d →
  (h = cancel ∧ truthy (remoteAddress r) = Some a)
  ∨ (h = adminCancel ∧ truthy (args_ip r) = Some a) →
  let once := h r w in
  let twice := h r (world_of once) in
  result_of once = Some tt
  ∧ returned (out (world_of once)) = Some (200, a ++ " is unregistered")
  ∧ returned (out (world_of twice)) = Some (200, a ++ " is unregistered")
  ∧ (d !! a = None → store_after once = Some d)
  ∧ store_after once = Some (delete a d)
  ∧ store_after twice = store_after once
  ∧ entry_after twice a = None.
Proof.
  intros Hd Hh once twice. subst once twice.
  assert (Hrun : ∀ w' d', whiteList w' = Some d' →
            h r w' = Ok tt (with_out (set_returned 200 (a ++ " is unregistered") (out w'))
                              (with_store (Some (delete a d')) w'))).
  { intros w' d' Hd'. destruct Hh as [[-> Ht]|[-> Ht]].
    - by apply cancel_run.
    - by apply adminCancel_run. }
  rewrite (Hrun w d Hd). cbn [world_of].
  set (w1 := with_out _ _). rewrite (Hrun w1 (delete a d) eq_refl).
  unfold entry_after, store_after. cbn.
  rewrite delete_delete_eq, lookup_delete_eq. repeat split.
  intros Hl. by rewrite delete_id.
Qed.

Lemma cancel_idempotent_witness :
  let r := mkRequest (Some "203.0.113.10") None None None in
  store_after (cancel r (world (Some ∅) (fixed_clock T0))) = Some ∅
  ∧ returned (out (world_of (cancel r (world (Some ∅) (fixed_clock T0)))))
    = Some (200, "203.0.113.10 is unregistered").
Proof.
  intros r.
  destruct (cancel_idempotent cancel r (world (Some ∅) (fixed_clock T0)) ∅
              "203.0.113.10" eq_refl (or_introl (conj eq_refl eq_refl)))
    as (_ & Hret & _ & Hsame & _).
  split; [apply Hsame; reflexivity | exact Hret].
Defined.

(** ** Corrupted entries *)

(** C10: an entry of [A] whose value does not convert to a number makes the
    check deny and delete the entry, so the next check of [A] finds nothing
    and denies too. *)
Theorem corrupt_entry_is_purged (w : World) (d : gmap string Entry)
    (A : string) (e : Entry) :
  whiteList w = Some d → A ≠ "" → d !! A = Some e →
  Number (val_of (value e)) = NaN →
  let check := isAllowed (Some A) w in
  let again := isAllowed (Some A) (world_of check) in
  result_of check = Some false
  ∧ store_after check = Some (delete A d)
  ∧ entry_after check A = None
  ∧ result_of again = Some false.
Proof.
  intros Hd HA Hl Hn check again. subst check again.
  rewrite (isAllowed_corrupt w d A Hd HA e Hl Hn). cbn [world_of result_of].
  set (w1 := with_store _ _).
  rewrite (isAllowed_absent w1 (delete A d) A eq_refl HA (lookup_delete_eq _ _)).
  unfold entry_after, store_after. cbn. by rewrite lookup_delete_eq.
Qed.

Lemma corrupt_entry_is_purged_witness :
  let d : gmap string Entry :=
    {[ "192.0.2.2"%string := mkEntry (SStr "not-a-number") (num_of_Z 1000) ]} in
  let check := isAllowed (Some "192.0.2.2") (world (Some d) (fixed_clock T0)) in
  result_of check = Some false ∧ store_after check = Some (delete "192.0.2.2" d).
Proof.
  intros d check.
  destruct (corrupt_entry_is_purged (world (Some d) (fixed_clock T0)) d "192.0.2.2"
              _ eq_refl ltac:(discriminate) (lookup_singleton_eq _ _) eq_refl)
    as (Hres & Hstore & _).
  by split.
Defined.

(** ** The listing *)

Lemma list_step_run w d acc k e :
  whiteList w = Some d → d !! k = Some e →
  list_step acc k w =
    let x := Number (val_of (value e)) in
    if Num.isNaN x then Ok acc w else
    match Date.toISOString x with
    | Some iso => Ok (acc ++ [mkRow k iso])%list w
    | None => Throw RangeError w
    end.
Proof.
  intros Hd Hk. unfold list_step. bind_with (by apply (get_run _ d)).
  rewrite Hk. cbn [from_option compose]. cbv zeta.
  destruct (Num.isNaN _); [done|]. by destruct (Date.toISOString _).
Qed.

(** A key that the dictionary does not hold reads as [undefined] and is
    skipped. *)
Lemma list_step_absent w d acc k :
  whiteList w = Some d → d !! k = None → list_step acc k w = Ok acc w.
Proof.
  intros Hd Hk. unfold list_step. bind_with (by apply (get_run _ d)).
  by rewrite Hk.
Qed.

Lemma list_loop_renderable w d (ks : list string) acc :
  whiteList w = Some d → renderable d →
  list_loop ks acc w = Ok (acc ++ listing ks d)%list w.
Proof.
  intros Hd Hr. revert acc. induction ks as [|k ks IH]; intros acc.
  - cbn. by rewrite app_nil_r.
  - cbn [list_loop]. unfold listing. cbn [omap list_omap]. fold (listing ks d).
    destruct (d !! k) as [e|] eqn:Hk; cbn [mbind option_bind].
    + unfold row_of. cbv zeta.
      pose proof (list_step_run w d acc k e Hd Hk) as Hstep.
      cbv zeta in Hstep. destruct (Num.isNaN _) eqn:E.
      * bind_with (exact Hstep). by apply IH.
      * destruct (Hr k e Hk E) as [iso Hiso]. rewrite Hiso in Hstep |- *.
        bind_with (exact Hstep). cbn [fmap option_fmap option_map].
        rewrite IH. by rewrite <- app_assoc.
    + bind_with (by apply (list_step_absent w d)). by apply IH.
Qed.

Lemma keys_run w d :
  whiteList w = Some d → Dict.keys w = Ok (keys_of w d) w.
Proof. intros Hd. unfold Dict.keys. by rewrite Hd. Qed.

(** The world enumerates exactly the keys of the dictionary, each once. *)
Lemma elem_of_keys_of w d k : k ∈ keys_of w d ↔ is_Some (d !! k).
Proof.
  unfold keys_of. rewrite (arrange_perm (order w)).
  rewrite list_elem_of_fmap. split.
  - intros ([k' e] & -> & Hin%elem_of_map_to_list). by exists e.
  - intros [e He]. exists (k, e). split; [done|]. by apply elem_of_map_to_list.
Qed.

Lemma NoDup_keys_of w d : NoDup (keys_of w d).
Proof.
  unfold keys_of. rewrite (arrange_perm (order w)).
  apply NoDup_fst_map_to_list.
Qed.

(** On a dictionary whose numeric values are all renderable the handler
    answers 200 with the rows of exactly the entries that hold a number, in
    the order in which the keys are enumerated. *)
Lemma adminWhiteList_renderable r w d :
  whiteList w = Some d → renderable d →
  adminWhiteList r w =
    Ok tt (with_out
             {| logs := logs (out w); errors := errors (out w);
                returned := Some (200, JSON.stringify (listing (keys_of w d) d));
                headersOut := <["Content-Type" := "application/json; charset=utf-8"]>
                                (headersOut (out w));
                decisions := decisions (out w) |} w).
Proof.
  intros Hd Hr. unfold adminWhiteList.
  bind_with (by apply (ensureStore_Some _ d)).
  change (negb true) with false. cbv iota.
  bind_with (by apply (keys_run w d)).
  bind_with (by apply (list_loop_renderable w d)).
  done.
Qed.

Lemma elem_of_listing ks d k iso :
  mkRow k iso ∈ listing ks d ↔
  k ∈ ks
  ∧ ∃ e, d !! k = Some e
         ∧ Num.isNaN (Number (val_of (value e))) = false
         ∧ Date.toISOString (Number (val_of (value e))) = Some iso.
Proof.
  unfold listing. rewrite list_elem_of_omap. split.
  - intros (k' & Hin & Hrow). destruct (d !! k') as [e|] eqn:Hl; [|done].
    cbn in Hrow. unfold row_of in Hrow. cbv zeta in Hrow.
    destruct (Num.isNaN _) eqn:E; [done|].
    destruct (Date.toISOString _) eqn:E'; [|done].
    cbn in Hrow. injection Hrow as -> ->. split; [done|]. by exists e.
  - intros (Hin & e & Hl & Hn & Hiso). exists k. split; [done|].
    rewrite Hl. cbn. unfold row_of. cbv zeta. by rewrite Hn, Hiso.
Qed.

(** The dictionary of the test "adminWhiteList should return json and skip
    invalid entries": one row, for the entry that holds a number. *)
Example adminWhiteList_skips_text :
  let d : gmap string Entry :=
    <["192.0.2.2"%string := mkEntry (SStr "not-a-number") (num_of_Z 1000)]>
      {[ "192.0.2.1"%string :=
           mkEntry (SNum (num_of_Z 1700000010000)) (num_of_Z 1000) ]} in
  returned (out (world_of (adminWhiteList (mkRequest None None None None)
                             (world (Some d) (fixed_clock T0)))))
  = Some (200, JSON.stringify [mkRow "192.0.2.1" "2023-11-14T22:13:30.000Z"]).
Proof. reflexivity. Qed.

(** C8, on a dictionary that the admin interface itself produces: after
    [/admin/register?ip=192.0.2.8&timeout=10000000000000000] the entry holds
    an instant beyond the range of [Date]; it is a number, so the loop does
    not skip it, and [toISOString] throws: the listing ends in a RangeError
    with no response written. *)
Theorem adminWhiteList_throws_out_of_range :
  let far := mkRequest None (Some "192.0.2.8") (Some "10000000000000000") None in
  let w := with_out silent
             (world_of (adminRegister far (world (Some ∅) (fixed_clock T0)))) in
  whiteList w
    = Some {[ "192.0.2.8"%string :=
                mkEntry (SNum (num_of_Z 10001700000000000))
                        (num_of_Z 10000000000000000) ]}
  ∧ adminWhiteList (mkRequest None None None None) w = Throw RangeError w
  ∧ returned (out (world_of (adminWhiteList (mkRequest None None None None) w)))
    = None.
Proof.
  intros far w. subst far w.
  rewrite (adminRegister_run
             (mkRequest None (Some "192.0.2.8") (Some "10000000000000000") None)
             (world (Some ∅) (fixed_clock T0)) ∅ eq_refl "192.0.2.8" eq_refl).
  rewrite (ttl_ms_valid _ 10000000000000000) by (done || reflexivity).
  cbn [world_of]. by vm_compute.
Qed.

(** * Further properties of the handlers *)

(** ** [parseTtlMs] *)

(** X1: whatever it is given, [parseTtlMs] returns a positive integer: the
    number its argument converts to when that is a positive integer, and
    7,200,000 otherwise; feeding a result back returns it unchanged. *)
Theorem parseTtlMs_range (rawTtl : JsVal) :
  (∃ N, 0 < N ∧ parseTtlMs rawTtl = num_of_Z N
        ∧ (Number rawTtl = num_of_Z N
           ∨ (N = 7200000 ∧ ¬ ∃ M, 0 < M ∧ Number rawTtl = num_of_Z M)))
  ∧ parseTtlMs (VNum (parseTtlMs rawTtl)) = parseTtlMs rawTtl.
Proof.
  split; [|apply parseTtlMs_idem].
  destruct (isPositiveInteger (Number rawTtl)) eqn:E.
  - destruct (proj1 (isPositiveInteger_spec _) E) as (N & HN & HNum).
    exists N. split; [done|]. split; [by apply parseTtlMs_valid | by left].
  - exists 7200000. split; [done|]. split; [by apply parseTtlMs_fallback|].
    right. split; [done|]. intros H%isPositiveInteger_spec. congruence.
Qed.

(** ** The decision of a check *)

Lemma gt_negb_le a b :
  Num.isNaN a = false → Num.isNaN b = false →
  Num.gt a b = negb (Num.le a b).
Proof.
  destruct a as [|[]|x], b as [|[]|y]; try done. intros _ _. simpl.
  destruct (decide (x ≤ y)%Qc) as [H|H].
  - rewrite (bool_decide_eq_true_2 _ H). apply bool_decide_eq_false_2.
    by apply Qcle_not_lt.
  - rewrite (bool_decide_eq_false_2 _ H). apply bool_decide_eq_true_2.
    by apply Qcnot_le_lt.
Qed.

Lemma gt_NaN b : Num.gt NaN b = false.
Proof. done. Qed.

(** X2: on a configured dictionary the check of a non-empty address
    returns, and it allows exactly when the address has an entry whose value
    converts to a number greater than the instant the check reads. *)
Theorem allowed_iff_live (w : World) (d : gmap string Entry) (a : string) :
  whiteList w = Some d → a ≠ "" →
  result_of (isAllowed (Some a) w)
  = Some (match d !! a with
          | Some e => Num.gt (Number (val_of (value e)))
                             (num_of_Z (clock w (ticks w)))
          | None => false
          end).
Proof.
  intros Hd Ha. destruct (d !! a) as [e|] eqn:Hl.
  - destruct (Num.isNaN (Number (val_of (value e)))) eqn:E1.
    { rewrite (isAllowed_corrupt w d a Hd Ha e Hl) by by apply isNaN_true.
      by rewrite (isNaN_true _ E1). }
    rewrite gt_negb_le by done.
    destruct (Num.le (Number (val_of (value e)))
                (num_of_Z (clock w (ticks w)))) eqn:E2.
    { by rewrite (isAllowed_expired w d a Hd Ha e Hl). }
    destruct (Num.le (Num.sub (Number (val_of (value e)))
                              (num_of_Z (clock w (ticks w))))
                (num_of_Z TTL_REFRESH_THRESHOLD_MS)) eqn:E3.
    + by rewrite (isAllowed_renew w d a Hd Ha e Hl).
    + by rewrite (isAllowed_keep w d a Hd Ha e Hl).
  - by rewrite (isAllowed_absent w d a Hd Ha Hl).
Qed.

Lemma allowed_iff_live_witness :
  let d : gmap string Entry :=
    {[ "203.0.113.10"%string := mkEntry (SStr "1700000000001") NaN ]} in
  result_of (isAllowed (Some "203.0.113.10") (world (Some d) (fixed_clock T0)))
  = Some true.
Proof.
  intros d.
  rewrite (allowed_iff_live (world (Some d) (fixed_clock T0)) d
             "203.0.113.10" eq_refl ltac:(discriminate)).
  reflexivity.
Defined.

(** X3: after the check of a non-empty address on a configured dictionary
    the address has an entry exactly when the check allowed: a deny never
    leaves an entry behind, an allow never removes it. *)
Theorem entry_survives_iff_allowed (w : World) (d : gmap string Entry)
    (a : string) :
  whiteList w = Some d → a ≠ "" →
  let check := isAllowed (Some a) w in
  (result_of check = Some true ∧ is_Some (entry_after check a))
  ∨ (result_of check = Some false ∧ entry_after check a = None).
Proof.
  intros Hd Ha check. subst check. unfold entry_after, store_after.
  destruct (isAllowed_outcome w d (Some a) Hd) as
    [H|a' ? ? Hl|a' e ? ? Hl|a' e ? ? Hl|a' e ? ? Hl|a' e ? ? Hl];
    simplify_eq; cbn; rewrite ?Hd; cbn.
  - by rewrite truthy_Some in H.
  - right. by rewrite Hl.
  - right. by rewrite lookup_delete_eq.
  - right. by rewrite lookup_delete_eq.
  - left. by rewrite lookup_insert_eq.
  - left. by rewrite Hl.
Qed.

Lemma entry_survives_iff_allowed_witness :
  entry_after (isAllowed (Some "203.0.113.10")
                 (world (Some {[ "203.0.113.10"%string :=
                                   mkEntry (SNum (num_of_Z T0)) (num_of_Z 1) ]})
                        (fixed_clock T0))) "203.0.113.10" = None.
Proof.
  destruct (entry_survives_iff_allowed
              (world (Some {[ "203.0.113.10"%string :=
                                mkEntry (SNum (num_of_Z T0)) (num_of_Z 1) ]})
                     (fixed_clock T0)) _ "203.0.113.10" eq_refl
              ltac:(discriminate)) as [[H _]|[_ H]].
  - discriminate H.
  - exact H.
Defined.

(** X4: a check reads and writes the entry of the address it is given and
    nothing else: every other entry of the dictionary is as before, and
    nothing is written on the request. *)
Theorem check_touches_one_address (w : World) (d : gmap string Entry)
    (ip : option string) (k : string) :
  whiteList w = Some d → ip ≠ Some k →
  entry_after (isAllowed ip w) k = d !! k
  ∧ out (world_of (isAllowed ip w)) = out w.
Proof.
  intros Hd Hk. unfold entry_after, store_after.
  destruct (isAllowed_outcome w d ip Hd); cbn; rewrite ?Hd; cbn;
    try done; subst ip.
  - rewrite lookup_delete_ne by congruence. done.
  - rewrite lookup_delete_ne by congruence. done.
  - rewrite lookup_insert_ne by congruence. done.
Qed.

Lemma check_touches_one_address_witness :
  let d : gmap string Entry :=
    {[ "192.0.2.2"%string := mkEntry (SStr "not-a-number") (num_of_Z 1000) ]} in
  entry_after (isAllowed (Some "192.0.2.1") (world (Some d) (fixed_clock T0)))
    "192.0.2.2"
  = Some (mkEntry (SStr "not-a-number") (num_of_Z 1000)).
Proof.
  intros d.
  destruct (check_touches_one_address (world (Some d) (fixed_clock T0)) d
              (Some "192.0.2.1") "192.0.2.2" eq_refl ltac:(discriminate))
    as [H _].
  rewrite H. reflexivity.
Defined.

(** ** The two gates side by side *)

(** X5: on the same session and world the request gate and the connection
    gate decide alike and leave the same dictionary: the connection gate
    records exactly one decision, [Allow] when the request gate answers 200
    and [Deny] when it answers 403 or 500, and the request gate answers
    nothing else. *)
Theorem gates_agree (r : Request) (w : World) :
  let http := http_verify r w in
  let stream := stream_verify r w in
  store_after http = store_after stream
  ∧ ((status (out (world_of http)) = Some 200
      ∧ decisions (out (world_of stream)) = (decisions (out w) ++ [Allow])%list)
     ∨ ((status (out (world_of http)) = Some 403
         ∨ status (out (world_of http)) = Some 500)
        ∧ decisions (out (world_of stream)) = (decisions (out w) ++ [Deny])%list)).
Proof.
  intros http stream. subst http stream.
  destruct (whiteList w) as [d|] eqn:Hd.
  - destruct (isAllowed_total w d (remoteAddress r) Hd) as (b & w' & Hc & Ho & _).
    rewrite (http_verify_configured r w d b w' Hd Hc).
    rewrite (stream_verify_configured r w d b w' Hd Hc).
    unfold store_after, status. split; [done|].
    destruct b; cbn; rewrite Ho; [left|right]; split; auto.
  - rewrite http_verify_unconfigured, stream_verify_unconfigured by done.
    unfold store_after, status. split; [done|]. right. cbn. auto.
Qed.

(** ** No exception escapes the guarded handlers *)

Ltac in_list :=
  repeat first [apply list_elem_of_here | apply list_elem_of_further].

(** X6: the two gates and the four mutating handlers return on every
    request and every world, configured or not: the TypeError of a call on
    the missing dictionary is never reached.  Each of the five that answer
    over HTTP sets a status, one of 200, 400, 403 and 500. *)
Theorem guarded_handlers_return (r : Request) (w : World) :
  Forall (λ h : Request → JS unit, ∃ w', h r w = Ok tt w')
    [http_verify; stream_verify; register; cancel; adminRegister; adminCancel]
  ∧ Forall (λ h : Request → JS unit,
              ∃ code, status (out (world_of (h r w))) = Some code
                      ∧ code ∈ [200; 400; 403; 500])
      [http_verify; register; cancel; adminRegister; adminCancel].
Proof.
  assert (Hhttp : ∃ w', http_verify r w = Ok tt w'
            ∧ ∃ code, status (out w') = Some code ∧ code ∈ [200; 400; 403; 500]).
  { destruct (whiteList w) as [d|] eqn:Hd.
    - destruct (isAllowed_total w d (remoteAddress r) Hd) as (b & w' & Hc & _).
      rewrite (http_verify_configured r w d b w' Hd Hc). eexists. split; [done|].
      destruct b; eexists; (split; [reflexivity|in_list]).
    - rewrite http_verify_unconfigured by done. eexists. split; [done|].
      eexists; (split; [reflexivity|in_list]). }
  assert (Hstream : ∃ w', stream_verify r w = Ok tt w').
  { destruct (whiteList w) as [d|] eqn:Hd.
    - destruct (isAllowed_total w d (remoteAddress r) Hd) as (b & w' & Hc & _).
      rewrite (stream_verify_configured r w d b w' Hd Hc). by eexists.
    - rewrite stream_verify_unconfigured by done. by eexists. }
  assert (Hself : ∀ h, h = register ∨ h = cancel → ∃ w', h r w = Ok tt w'
            ∧ ∃ code, status (out w') = Some code ∧ code ∈ [200; 400; 403; 500]).
  { intros h Hh. destruct (whiteList w) as [d|] eqn:Hd.
    - destruct (truthy (remoteAddress r)) as [a|] eqn:Ha; destruct Hh as [->| ->];
        rewrite ?(register_run r w d Hd a Ha), ?(cancel_run r w d Hd a Ha),
          ?(register_missing r w d Hd Ha), ?(cancel_missing r w d Hd Ha);
        eexists; (split; [done|]); eexists; (split; [reflexivity|in_list]).
    - destruct Hh as [->| ->];
        rewrite ?register_unconfigured, ?cancel_unconfigured by done;
        eexists; (split; [done|]); eexists; (split; [reflexivity|in_list]). }
  assert (Hadmin : ∀ h, h = adminRegister ∨ h = adminCancel →
            ∃ w', h r w = Ok tt w'
            ∧ ∃ code, status (out w') = Some code ∧ code ∈ [200; 400; 403; 500]).
  { intros h Hh. destruct (whiteList w) as [d|] eqn:Hd.
    - destruct (truthy (args_ip r)) as [a|] eqn:Ha; destruct Hh as [->| ->];
        rewrite ?(adminRegister_run r w d Hd a Ha), ?(adminCancel_run r w d Hd a Ha),
          ?(adminRegister_missing r w d Hd Ha), ?(adminCancel_missing r w d Hd Ha);
        eexists; (split; [done|]); eexists; (split; [reflexivity|in_list]).
    - destruct Hh as [->| ->];
        rewrite ?adminRegister_unconfigured, ?adminCancel_unconfigured by done;
        eexists; (split; [done|]); eexists; (split; [reflexivity|in_list]). }
  destruct Hhttp as (w1 & E1 & S1).
  destruct Hstream as (w2 & E2).
  destruct (Hself register (or_introl eq_refl)) as (w3 & E3 & S3).
  destruct (Hself cancel (or_intror eq_refl)) as (w4 & E4 & S4).
  destruct (Hadmin adminRegister (or_introl eq_refl)) as (w5 & E5 & S5).
  destruct (Hadmin adminCancel (or_intror eq_refl)) as (w6 & E6 & S6).
  split.
  - repeat (apply List.Forall_cons || apply List.Forall_nil); eauto.
  - repeat (apply List.Forall_cons || apply List.Forall_nil); cbv beta;
      rewrite ?E1, ?E3, ?E4, ?E5, ?E6; done.
Qed.

(** ** The listing, in full *)

Lemma row_of_ip k e row : row_of k e = Some row → ip row = k.
Proof.
  unfold row_of. cbv zeta. destruct (Num.isNaN _); [done|].
  destruct (Date.toISOString _); [|done]. by intros [= <-].
Qed.

Lemma listing_ips_sub (ks : list string) d k :
  k ∈ ip <$> listing ks d → k ∈ ks.
Proof.
  intros (row & -> & (k' & Hin & Hrow)%list_elem_of_omap)%list_elem_of_fmap.
  destruct (d !! k') as [e|]; [|done]. cbn in Hrow.
  by apply row_of_ip in Hrow as ->.
Qed.

Lemma listing_ips_NoDup (ks : list string) d :
  NoDup ks → NoDup (ip <$> listing ks d).
Proof.
  induction ks as [|k ks IH]; [constructor|].
  intros [Hk Hl]%list.NoDup_cons. unfold listing. cbn [omap list_omap].
  fold (listing ks d). destruct (d !! k ≫= row_of k) as [row|] eqn:E.
  - cbn [fmap list_fmap]. apply list.NoDup_cons. split; [|by apply IH].
    destruct (d !! k) as [e|]; [|done]. cbn in E.
    rewrite (row_of_ip k e row E). intros Hin. by apply Hk, (listing_ips_sub ks d).
  - by apply IH.
Qed.

Lemma list_loop_unrenderable w d (ks : list string) acc :
  whiteList w = Some d →
  (∃ k e, k ∈ ks ∧ d !! k = Some e ∧ unrenderable e) →
  list_loop ks acc w = Throw RangeError w.
Proof.
  intros Hd. revert acc. induction ks as [|k ks IH]; intros acc Hbad.
  - destruct Hbad as (k & e & Hin & _). by apply elem_of_nil in Hin.
  - cbn [list_loop]. destruct (d !! k) as [e|] eqn:Hk.
    + pose proof (list_step_run w d acc k e Hd Hk) as Hstep. cbv zeta in Hstep.
      destruct (Num.isNaN (Number (val_of (value e)))) eqn:E1;
        [|destruct (Date.toISOString (Number (val_of (value e)))) as [iso|] eqn:E2].
      * bind_with (exact Hstep). apply IH.
        destruct Hbad as (k' & e' & [->|Hin]%elem_of_cons & Hl & Hn & Hi);
          [congruence|]. by exists k', e'.
      * bind_with (exact Hstep). apply IH.
        destruct Hbad as (k' & e' & [->|Hin]%elem_of_cons & Hl & Hn & Hi);
          [congruence|]. by exists k', e'.
      * unfold mbind, JS_bind. by rewrite Hstep.
    + bind_with (by apply (list_step_absent w d)). apply IH.
      destruct Hbad as (k' & e' & [->|Hin]%elem_of_cons & Hl & Hb);
        [congruence|]. by exists k', e'.
Qed.

(** Either every entry of a list can be rendered or one of them cannot. *)
Lemma renderable_or_not (l : list (string * Entry)) :
  (∀ k e, (k, e) ∈ l → Num.isNaN (Number (val_of (value e))) = false →
          is_Some (Date.toISOString (Number (val_of (value e)))))
  ∨ (∃ k e, (k, e) ∈ l ∧ unrenderable e).
Proof.
  induction l as [|[k e] l [IH|(k' & e' & Hin & Hbad)]].
  - left. intros k e Hin. by apply elem_of_nil in Hin.
  - destruct (Num.isNaN (Number (val_of (value e)))) eqn:E1;
      [|destruct (Date.toISOString (Number (val_of (value e)))) as [iso|] eqn:E2].
    + left. intros k' e' [[= -> ->]|Hin]%elem_of_cons;
        [intros; congruence|by apply (IH k' e')].
    + left. intros k' e' [[= -> ->]|Hin]%elem_of_cons;
        [by rewrite E2|by apply (IH k' e')].
    + right. exists k, e. split; [left|done].
  - right. exists k', e'. split; [by right|done].
Qed.

Lemma adminWhiteList_unrenderable r w d :
  whiteList w = Some d →
  (∃ k e, (k, e) ∈ map_to_list d ∧ unrenderable e) →
  adminWhiteList r w = Throw RangeError w.
Proof.
  intros Hd (k & e & Hin%elem_of_map_to_list & Hbad). unfold adminWhiteList.
  bind_with (by apply (ensureStore_Some _ d)).
  change (negb true) with false. cbv iota.
  bind_with (by apply (keys_run w d)). unfold mbind, JS_bind.
  rewrite (list_loop_unrenderable w d); [done|done|].
  exists k, e. split; [|done]. apply elem_of_keys_of. by exists e.
Qed.

(** The listing never changes the dictionary, whether it returns or throws. *)
Lemma adminWhiteList_store r w :
  store_after (adminWhiteList r w) = whiteList w.
Proof.
  destruct (whiteList w) as [d|] eqn:Hd.
  - destruct (renderable_or_not (map_to_list d)) as [Hok|Hbad].
    + rewrite (adminWhiteList_renderable r w d Hd); [done|].
      intros k e Hl. apply (Hok k e). by apply elem_of_map_to_list.
    + by rewrite (adminWhiteList_unrenderable r w d Hd Hbad).
  - unfold adminWhiteList. bind_with (by apply ensureStore_None).
    unfold store_after. by cbn.
Qed.

(** X7: on a configured dictionary the listing never changes the dictionary
    and ends in one of two ways: it returns, which it does exactly when every
    numeric value is an instant that [Date] can render; or it throws a
    RangeError with nothing written on the request, which it does exactly
    when some entry holds a number that [Date] cannot render. *)
Theorem listing_outcome (r : Request) (w : World) (d : gmap string Entry) :
  whiteList w = Some d →
  store_after (adminWhiteList r w) = Some d
  ∧ ((renderable d ∧ result_of (adminWhiteList r w) = Some tt)
     ∨ ((∃ k e, d !! k = Some e ∧ unrenderable e)
        ∧ adminWhiteList r w = Throw RangeError w)).
Proof.
  intros Hd. split; [by rewrite adminWhiteList_store|].
  destruct (renderable_or_not (map_to_list d)) as [Hok|Hbad].
  - assert (Hr : renderable d).
    { intros k e Hl. apply (Hok k e). by apply elem_of_map_to_list. }
    rewrite (adminWhiteList_renderable r w d Hd Hr). by left.
  - right. split; [|by apply (adminWhiteList_unrenderable r w d)].
    destruct Hbad as (k & e & Hin%elem_of_map_to_list & Hb). by exists k, e.
Qed.

Lemma listing_outcome_witness :
  let d : gmap string Entry :=
    {[ "192.0.2.7"%string := mkEntry (SStr "Infinity") (num_of_Z 1000) ]} in
  let w := world (Some d) (fixed_clock T0) in
  store_after (adminWhiteList (mkRequest None None None None) w) = Some d
  ∧ adminWhiteList (mkRequest None None None None) w = Throw RangeError w.
Proof.
  intros d w.
  destruct (listing_outcome (mkRequest None None None None) w d eq_refl)
    as [Hstore [[Hr _]|[_ Hthrow]]].
  - destruct (Hr "192.0.2.7" _ (lookup_singleton_eq _ _) eq_refl) as [iso Hiso].
    discriminate Hiso.
  - by split.
Defined.

(** X8: on a configured dictionary whose numeric values [Date] can all
    render, the listing answers 200 with the JSON content type and the array
    of the rows, in whatever order the dictionary enumerates its keys; an
    address has a row exactly when its entry holds a number, the row carries
    the ISO rendering of that number, and no address has two rows. *)
Theorem listing_of_renderable (r : Request) (w : World)
    (d : gmap string Entry) :
  whiteList w = Some d → renderable d →
  let o := out (world_of (adminWhiteList r w)) in
  let rows := listing (keys_of w d) d in
  returned o = Some (200, JSON.stringify rows)
  ∧ headersOut o !! "Content-Type" = Some "application/json; charset=utf-8"
  ∧ (∀ k iso, mkRow k iso ∈ rows ↔
       ∃ e, d !! k = Some e
            ∧ Num.isNaN (Number (val_of (value e))) = false
            ∧ Date.toISOString (Number (val_of (value e))) = Some iso)
  ∧ NoDup (ip <$> rows).
Proof.
  intros Hd Hr o rows. subst o rows.
  rewrite (adminWhiteList_renderable r w d Hd Hr).
  cbn [world_of out with_out returned headersOut].
  split; [done|]. split; [apply lookup_insert_eq|]. split.
  - intros k iso. rewrite elem_of_listing, elem_of_keys_of. split.
    + by intros [_ H].
    + intros (e & Hl & H). split; [by exists e|]. by exists e.
  - apply listing_ips_NoDup, NoDup_keys_of.
Qed.

(** The dictionary of the test, with the keys enumerated in the order in
    which the test inserted them and in the opposite order. *)
Lemma listing_of_renderable_witness :
  let d : gmap string Entry :=
    <["192.0.2.2"%string := mkEntry (SStr "not-a-number") (num_of_Z 1000)]>
      {[ "192.0.2.1"%string :=
           mkEntry (SNum (num_of_Z 1700000010000)) (num_of_Z 1000) ]} in
  let backwards : KeyOrder :=
    {| arrange := reverse; arrange_perm := reverse_Permutation |} in
  let w := {| whiteList := Some d; order := backwards;
              clock := fixed_clock T0; ticks := O; out := silent |} in
  renderable d
  ∧ returned (out (world_of (adminWhiteList (mkRequest None None None None) w)))
    = Some (200, JSON.stringify (listing (keys_of w d) d))
  ∧ returned (out (world_of (adminWhiteList (mkRequest None None None None)
                               (world (Some d) (fixed_clock T0)))))
    = Some (200, JSON.stringify (listing (keys_of w d) d)).
Proof.
  intros d backwards w.
  assert (Hr : renderable d).
  { intros k e [[<- <-]|[_ [<- <-]%lookup_singleton_Some]]%lookup_insert_Some;
      [discriminate|]. intros _. by eexists. }
  split; [exact Hr|]. split.
  - exact (proj1 (listing_of_renderable (mkRequest None None None None)
                    w d eq_refl Hr)).
  - rewrite (proj1 (listing_of_renderable (mkRequest None None None None)
                      (world (Some d) (fixed_clock T0)) d eq_refl Hr)).
    reflexivity.
Defined.

(** ** Handlers in sequence *)

Lemma http_verify_instant r w d a e x :
  whiteList w = Some d → remoteAddress r = Some a → a ≠ "" →
  d !! a = Some e → Number (val_of (value e)) = num_of_Z x →
  status (out (world_of (http_verify r w)))
    = Some (if bool_decide (x ≤ clock w (ticks w)) then 403 else 200)
  ∧ (x ≤ clock w (ticks w) → entry_after (http_verify r w) a = None).
Proof.
  intros Hd Hr Ha Hl Hx.
  pose proof (isAllowed_instant w d a e x Hd Ha Hl Hx) as Hc. cbv zeta in Hc.
  rewrite <- Hr in Hc. unfold status, entry_after, store_after.
  destruct (bool_decide (x ≤ clock w (ticks w))) eqn:E1;
    [|destruct (bool_decide (x - clock w (ticks w) ≤ TTL_REFRESH_THRESHOLD_MS))];
    rewrite (http_verify_configured r w d _ _ Hd Hc); cbn.
  - split; [done|]. intros _. by rewrite lookup_delete_eq.
  - split; [done|]. intros Hle. by apply bool_decide_eq_false in E1.
  - split; [done|]. intros Hle. by apply bool_decide_eq_false in E1.
Qed.

(** X9: self registration followed by the request gate, for a caller with
    an address on a configured dictionary: registered at [T], the caller is
    answered 200 by a check that reads the clock before [T + 7,200,000], and
    403 by a check that reads [T + 7,200,000] or later, which also removes
    the entry. *)
Theorem register_then_verify (r : Request) (w : World)
    (d : gmap string Entry) (a : string) :
  whiteList w = Some d → truthy (remoteAddress r) = Some a →
  let T := clock w (ticks w) in
  let T' := clock w (S (ticks w)) in
  let verify := http_verify r (world_of (register r w)) in
  (T' < T + 7200000 → status (out (world_of verify)) = Some 200)
  ∧ (T + 7200000 ≤ T' →
     status (out (world_of verify)) = Some 403 ∧ entry_after verify a = None).
Proof.
  intros Hd Ht T T' verify. subst verify.
  destruct (truthy_inv _ _ Ht) as [Hr Ha].
  rewrite (register_run r w d Hd a Ht). cbn [world_of].
  set (d1 := <[a := written T DEFAULT_TTL_MS]> d).
  set (w1 := with_out _ _).
  destruct (http_verify_instant r w1 d1 a (written T DEFAULT_TTL_MS)
              (T + 7200000) eq_refl Hr Ha (lookup_insert_eq _ _ _) eq_refl)
    as [Hs He].
  change (clock w1 (ticks w1)) with T' in Hs, He. rewrite Hs. split.
  - intros Hlt. by rewrite bool_decide_eq_false_2 by lia.
  - intros Hge. rewrite bool_decide_eq_true_2 by lia. split; [done|by apply He].
Qed.

Lemma register_then_verify_witness :
  let r := mkRequest (Some "203.0.113.10") None None None in
  status (out (world_of (http_verify r
            (world_of (register r (world (Some ∅) (fixed_clock T0))))))) = Some 200.
Proof.
  intros r.
  destruct (register_then_verify r (world (Some ∅) (fixed_clock T0)) ∅
              "203.0.113.10" eq_refl eq_refl) as [H _].
  apply H. vm_compute. reflexivity.
Defined.

(** X10: cancelling after registering undoes the registration: for a caller
    with an address on a configured dictionary, self register followed by
    self cancel leaves the dictionary without the address, which is the
    dictionary before the two calls when the address was not registered; the
    same holds of admin register followed by admin cancel of one target,
    whatever the timeout; and the request gate then answers the address 403. *)
Theorem cancel_undoes_register (r : Request) (w : World)
    (d : gmap string Entry) (a : string) :
  whiteList w = Some d →
  (truthy (remoteAddress r) = Some a →
   let after := cancel r (world_of (register r w)) in
   store_after after = Some (delete a d)
   ∧ (d !! a = None → store_after after = Some d)
   ∧ status (out (world_of (http_verify r (world_of after)))) = Some 403)
  ∧ (truthy (args_ip r) = Some a →
     let after := adminCancel r (world_of (adminRegister r w)) in
     store_after after = Some (delete a d)
     ∧ (d !! a = None → store_after after = Some d)).
Proof.
  intros Hd. split; intros Ht after; subst after.
  - rewrite (register_run r w d Hd a Ht). cbn [world_of].
    set (w1 := with_out _ _).
    rewrite (cancel_run r w1 _ eq_refl a Ht). cbn [world_of].
    unfold store_after. cbn. rewrite delete_insert_eq.
    split; [done|]. split; [intros Hl; by rewrite delete_id|].
    set (w2 := with_out _ _).
    destruct (truthy_inv _ _ Ht) as [Hr Ha].
    assert (Hc : isAllowed (remoteAddress r) w2 = Ok false w2).
    { rewrite Hr. apply (isAllowed_absent w2 (delete a d) a); [|done|].
      - unfold w2. cbn. by rewrite ?delete_insert_eq.
      - apply lookup_delete_eq. }
    rewrite (http_verify_configured r w2 (delete a d) false w2); [done| |done].
    unfold w2. cbn. by rewrite ?delete_insert_eq.
  - rewrite (adminRegister_run r w d Hd a Ht). cbn [world_of].
    set (w1 := with_out _ _).
    rewrite (adminCancel_run r w1 _ eq_refl a Ht).
    unfold store_after. cbn. rewrite delete_insert_eq.
    split; [done|]. intros Hl. by rewrite delete_id.
Qed.

Lemma cancel_undoes_register_witness :
  let r := mkRequest (Some "203.0.113.10") None None None in
  store_after (cancel r (world_of (register r (world (Some ∅) (fixed_clock T0)))))
  = Some ∅.
Proof.
  intros r.
  destruct (cancel_undoes_register r (world (Some ∅) (fixed_clock T0)) ∅
              "203.0.113.10" eq_refl) as [H _].
  destruct (H eq_refl) as (_ & Hsame & _). by apply Hsame.
Defined.

(** ** What the mutating handlers leave alone *)

(** X11: on a configured dictionary a mutating handler changes the entry of
    its own target at most: the self-service handlers leave every address
    but the caller's as it was, the admin handlers every address but the [ip]
    argument, and a request without a target changes nothing. *)
Theorem mutations_touch_only_target (r : Request) (w : World)
    (d : gmap string Entry) (k : string) :
  whiteList w = Some d →
  (truthy (remoteAddress r) ≠ Some k →
   entry_after (register r w) k = d !! k ∧ entry_after (cancel r w) k = d !! k)
  ∧ (truthy (args_ip r) ≠ Some k →
     entry_after (adminRegister r w) k = d !! k
     ∧ entry_after (adminCancel r w) k = d !! k).
Proof.
  intros Hd. unfold entry_after, store_after. split; intros Hk.
  - destruct (truthy (remoteAddress r)) as [a|] eqn:Ht.
    + rewrite (register_run r w d Hd a Ht), (cancel_run r w d Hd a Ht). cbn.
      rewrite lookup_insert_ne, lookup_delete_ne by congruence. done.
    + rewrite (register_missing r w d Hd Ht), (cancel_missing r w d Hd Ht).
      cbn. by rewrite Hd.
  - destruct (truthy (args_ip r)) as [a|] eqn:Ht.
    + rewrite (adminRegister_run r w d Hd a Ht), (adminCancel_run r w d Hd a Ht).
      cbn. rewrite lookup_insert_ne, lookup_delete_ne by congruence. done.
    + rewrite (adminRegister_missing r w d Hd Ht), (adminCancel_missing r w d Hd Ht).
      cbn. by rewrite Hd.
Qed.

Lemma mutations_touch_only_target_witness :
  let d : gmap string Entry :=
    {[ "192.0.2.1"%string := mkEntry (SNum (num_of_Z T0)) (num_of_Z 1000) ]} in
  entry_after (adminCancel (mkRequest None (Some "192.0.2.2") None None)
                 (world (Some d) (fixed_clock T0))) "192.0.2.1"
  = Some (mkEntry (SNum (num_of_Z T0)) (num_of_Z 1000)).
Proof.
  intros d.
  destruct (mutations_touch_only_target
              (mkRequest None (Some "192.0.2.2") None None)
              (world (Some d) (fixed_clock T0)) d "192.0.2.1" eq_refl) as [_ H].
  destruct (H ltac:(discriminate)) as [_ Hc]. rewrite Hc. reflexivity.
Defined.

(** ** The guards *)

(** X12: with the dictionary not configured every handler that answers over
    HTTP answers 500 with the body [VShield storage is not configured], reads
    no clock and leaves the dictionary missing; only the request gate also
    writes an error line. *)
Theorem unconfigured_answers_500 (r : Request) (w : World) :
  whiteList w = None →
  Forall (λ h : Request → JS unit,
            returned (out (world_of (h r w)))
              = Some (500, "VShield storage is not configured")
            ∧ store_after (h r w) = None
            ∧ ticks (world_of (h r w)) = ticks w
            ∧ logs (out (world_of (h r w))) = logs (out w))
    [http_verify; register; cancel; adminWhiteList; adminRegister; adminCancel]
  ∧ errors (out (world_of (http_verify r w)))
    = (errors (out w) ++ ["vs_ip shared dict is not configured"])%list
  ∧ Forall (λ h : Request → JS unit,
              errors (out (world_of (h r w))) = errors (out w))
      [register; cancel; adminWhiteList; adminRegister; adminCancel].
Proof.
  intros Hn.
  assert (Hl : adminWhiteList r w
               = Ok tt (with_out (set_returned 500
                          "VShield storage is not configured" (out w)) w)).
  { unfold adminWhiteList. by bind_with (by apply ensureStore_None). }
  unfold store_after.
  repeat split; repeat (apply List.Forall_cons || apply List.Forall_nil);
    cbv beta;
    rewrite ?http_verify_unconfigured, ?register_unconfigured,
      ?cancel_unconfigured, ?Hl, ?adminRegister_unconfigured,
      ?adminCancel_unconfigured by done; done.
Qed.

Lemma unconfigured_answers_500_witness :
  returned (out (world_of (adminWhiteList (mkRequest None None None None)
                             (world None (fixed_clock T0)))))
  = Some (500, "VShield storage is not configured").
Proof.
  destruct (unconfigured_answers_500 (mkRequest None None None None)
              (world None (fixed_clock T0)) eq_refl) as [H _].
  apply Forall_cons_1 in H as [_ H]. apply Forall_cons_1 in H as [_ H].
  apply Forall_cons_1 in H as [_ H]. apply Forall_cons_1 in H as [[H _] _].
  exact H.
Defined.

(** X13: on a configured dictionary a request without a target is refused
    with 400 and changes nothing: the self-service handlers answer
    [Missing client IP] when the source address is missing or empty, the
    admin handlers answer [Missing query parameter: ip] when the [ip]
    argument is, and neither reads the clock or touches the dictionary. *)
Theorem missing_target_answers_400 (r : Request) (w : World)
    (d : gmap string Entry) :
  whiteList w = Some d →
  (truthy (remoteAddress r) = None →
   Forall (λ h : Request → JS unit,
             h r w = Ok tt (with_out (set_returned 400 "Missing client IP" (out w)) w))
     [register; cancel])
  ∧ (truthy (args_ip r) = None →
     Forall (λ h : Request → JS unit,
               h r w = Ok tt (with_out (set_returned 400
                                "Missing query parameter: ip" (out w)) w))
       [adminRegister; adminCancel]).
Proof.
  intros Hd. split; intros Ht;
    repeat (apply List.Forall_cons || apply List.Forall_nil).
  - by apply (register_missing r w d).
  - by apply (cancel_missing r w d).
  - by apply (adminRegister_missing r w d).
  - by apply (adminCancel_missing r w d).
Qed.

Lemma missing_target_answers_400_witness :
  status (out (world_of (register (mkRequest (Some "") None None None)
                           (world (Some ∅) (fixed_clock T0))))) = Some 400.
Proof.
  destruct (missing_target_answers_400 (mkRequest (Some "") None None None)
              (world (Some ∅) (fixed_clock T0)) ∅ eq_refl) as [H _].
  specialize (H eq_refl). apply Forall_cons_1 in H as [H _].
  rewrite H. reflexivity.
Defined.

(** ** Lifetimes *)

(** X14: a check never shortens a lifetime.  When the clock does not run
    backwards between the two reads of a check, the entry of the checked
    address that holds a finite instant is afterwards gone (it had lapsed),
    untouched, or rewritten to a strictly later instant. *)
Theorem check_never_shortens (w : World) (d : gmap string Entry) (A : string)
    (e e' : Entry) (x : Qc) :
  whiteList w = Some d → A ≠ "" → d !! A = Some e →
  Number (val_of (value e)) = Fin x →
  clock w (ticks w) ≤ clock w (S (ticks w)) →
  entry_after (isAllowed (Some A) w) A = Some e' →
  e' = e
  ∨ ∃ y, value e' = SNum (num_of_Z y) ∧ ttl e' = num_of_Z 7200000
         ∧ (x < Qc_of_Z y)%Qc.
Proof.
  intros Hd HA Hl Hn Hmono. unfold entry_after, store_after.
  destruct (Num.le (Number (val_of (value e)))
              (num_of_Z (clock w (ticks w)))) eqn:E2.
  { rewrite (isAllowed_expired w d A Hd HA e Hl) by (first [done | by rewrite Hn]). cbn.
    by rewrite lookup_delete_eq. }
  destruct (Num.le (Num.sub (Number (val_of (value e)))
                            (num_of_Z (clock w (ticks w))))
              (num_of_Z TTL_REFRESH_THRESHOLD_MS)) eqn:E3.
  - rewrite (isAllowed_renew w d A Hd HA e Hl) by (first [done | by rewrite Hn]). cbn.
    rewrite lookup_insert_eq. intros [= <-]. right.
    exists (clock w (S (ticks w)) + 7200000). split; [done|]. split; [done|].
    rewrite Hn, sub_Fin, le_Fin in E3. apply bool_decide_eq_true in E3.
    apply (Qcplus_le_mono_r _ _ (Qc_of_Z (clock w (ticks w)))) in E3.
    replace (x - Qc_of_Z (clock w (ticks w)) + Qc_of_Z (clock w (ticks w)))%Qc
      with x in E3 by ring.
    rewrite <- Z2Qc_inj_add in E3.
    eapply Qcle_lt_trans; [exact E3|]. apply (proj1 (Z2Qc_inj_lt _ _)).
    unfold TTL_REFRESH_THRESHOLD_MS. lia.
  - rewrite (isAllowed_keep w d A Hd HA e Hl) by (first [done | by rewrite Hn]). cbn.
    rewrite Hd. cbn. rewrite Hl. intros [= <-]. by left.
Qed.

Lemma check_never_shortens_witness :
  let A := "203.0.113.10"%string in
  let e := mkEntry (SNum (num_of_Z (T0 + 1000))) (num_of_Z 1000) in
  let e' := mkEntry (SNum (num_of_Z (T0 + 7200000))) (num_of_Z 7200000) in
  e' = e
  ∨ ∃ y, value e' = SNum (num_of_Z y) ∧ ttl e' = num_of_Z 7200000
         ∧ (Qc_of_Z (T0 + 1000) < Qc_of_Z y)%Qc.
Proof.
  intros A e e'.
  apply (check_never_shortens (world (Some {[ A := e ]}) (fixed_clock T0))
           {[ A := e ]} A e e' (Qc_of_Z (T0 + 1000)) eq_refl ltac:(discriminate)
           (lookup_singleton_eq _ _) eq_refl).
  - vm_compute. discriminate.
  - rewrite (isAllowed_instant (world (Some {[ A := e ]}) (fixed_clock T0))
               {[ A := e ]} A e (T0 + 1000) eq_refl
               ltac:(discriminate) (lookup_singleton_eq _ _) eq_refl).
    reflexivity.
Defined.

(** X15: an entry whose value is [Infinity] is a permanent pass: on a
    configured dictionary the check of its address allows at every instant
    and never rewrites it; an entry whose value is [-Infinity] is denied and
    deleted by the first check. *)
Theorem infinite_expiry (w : World) (d : gmap string Entry) (A : string)
    (e : Entry) :
  whiteList w = Some d → A ≠ "" → d !! A = Some e →
  let check := isAllowed (Some A) w in
  (Number (val_of (value e)) = Inf false →
   result_of check = Some true ∧ store_after check = Some d)
  ∧ (Number (val_of (value e)) = Inf true →
     result_of check = Some false ∧ entry_after check A = None).
Proof.
  intros Hd HA Hl check. subst check. split; intros Hn.
  - by rewrite (isAllowed_keep w d A Hd HA e Hl) by (first [done | by rewrite Hn]).
  - rewrite (isAllowed_expired w d A Hd HA e Hl) by (first [done | by rewrite Hn]).
    unfold entry_after, store_after. cbn. by rewrite lookup_delete_eq.
Qed.

Lemma infinite_expiry_witness :
  let d : gmap string Entry :=
    {[ "192.0.2.7"%string := mkEntry (SStr "Infinity") (num_of_Z 1000) ]} in
  result_of (isAllowed (Some "192.0.2.7") (world (Some d) (fixed_clock T0)))
  = Some true.
Proof.
  intros d.
  destruct (infinite_expiry (world (Some d) (fixed_clock T0)) d "192.0.2.7" _
              eq_refl ltac:(discriminate) (lookup_singleton_eq _ _)) as [H _].
  by destruct (H eq_refl).
Defined.

(** ** From a registration to the listing *)

Lemma toISOString_of_Z z :
  Z.abs z ≤ 8640000000000000 →
  Date.toISOString (num_of_Z z) = Some (Date.format z).
Proof.
  intros Hz. unfold Date.toISOString, Date.TimeClip, num_of_Z. cbn.
  rewrite Z.mul_1_r, Z.quot_1_r.
  by rewrite (proj2 (Z.leb_le _ _) Hz).
Qed.

Lemma renderable_insert d a z t :
  renderable d → Z.abs z ≤ 8640000000000000 →
  renderable (<[a := mkEntry (SNum (num_of_Z z)) t]> d).
Proof.
  intros Hr Hz k e [[<- <-]|[_ Hl]]%lookup_insert_Some Hn.
  - change (is_Some (Date.toISOString (num_of_Z z))).
    rewrite toISOString_of_Z by done. by eexists.
  - by apply (Hr k e).
Qed.

(** X16: what the admin registers the admin sees.  On a configured
    dictionary that the listing can render, after an admin registration of
    [A] at instant [T] with effective ttl [N], where [T] and [T + N] lie
    within the range of [Date] (so that the sum is exact), the listing
    answers 200 with the rows of the new dictionary in the order in which its
    keys are enumerated, and among them [A] has exactly one row, which carries
    the ISO rendering of [T + N]. *)
Theorem registered_address_is_listed (r r' : Request) (w : World)
    (d : gmap string Entry) (A : string) :
  whiteList w = Some d → renderable d → truthy (args_ip r) = Some A →
  let T := clock w (ticks w) in
  let N := ttl_ms (arg_val (args_timeout r)) in
  Z.abs T ≤ 8640000000000000 → Z.abs (T + N) ≤ 8640000000000000 →
  let d' := <[A := written T N]> d in
  let list := adminWhiteList r' (world_of (adminRegister r w)) in
  let rows := listing (keys_of w d') d' in
  store_after (adminRegister r w) = Some d'
  ∧ returned (out (world_of list)) = Some (200, JSON.stringify rows)
  ∧ (∀ iso, mkRow A iso ∈ rows ↔ iso = Date.format (T + N))
  ∧ NoDup (ip <$> rows).
Proof.
  intros Hd Hr Ht T N HT Hrange d' list rows. subst list rows.
  rewrite (adminRegister_run r w d Hd A Ht). fold T N d'. cbn [world_of].
  assert (Hr' : renderable d') by by apply renderable_insert.
  set (w1 := with_out _ _).
  rewrite (adminWhiteList_renderable r' w1 d' eq_refl Hr').
  change (keys_of w1 d') with (keys_of w d').
  split; [done|]. split; [done|]. split; [|apply listing_ips_NoDup, NoDup_keys_of].
  intros iso. rewrite elem_of_listing, elem_of_keys_of.
  unfold d'. rewrite lookup_insert_eq. split.
  - intros (_ & e & [= <-] & _ & Hiso).
    change (Date.toISOString (num_of_Z (T + N)) = Some iso) in Hiso.
    rewrite toISOString_of_Z in Hiso by done. congruence.
  - intros ->. split; [by eexists|]. eexists. split; [done|]. split; [done|].
    by apply toISOString_of_Z.
Qed.

Lemma registered_address_is_listed_witness :
  let r := mkRequest None (Some "192.0.2.8") (Some "600000") None in
  let w := world (Some ∅) (fixed_clock T0) in
  mkRow "192.0.2.8" "2023-11-14T22:23:20.000Z"
  ∈ listing (keys_of w (<["192.0.2.8"%string := written T0 600000]> ∅))
      (<["192.0.2.8"%string := written T0 600000]> ∅).
Proof.
  intros r w.
  assert (Hr : renderable (∅ : gmap string Entry)) by (by intros k e).
  destruct (registered_address_is_listed r r w ∅ "192.0.2.8" eq_refl Hr eq_refl)
    as (_ & _ & H & _).
  - vm_compute. discriminate.
  - rewrite (ttl_ms_valid _ 600000) by (done || reflexivity).
    vm_compute. discriminate.
  - rewrite (ttl_ms_valid _ 600000) in H by (done || reflexivity).
    by apply H.
Defined.

(** ** The admin console *)

Module AdminUI_facts.
Import AdminUI.

Lemma special_cases c :
  special c = true →
  c = "&"%char ∨ c = "<"%char ∨ c = ">"%char ∨ c = JSON.quote ∨ c = "'"%char.
Proof.
  unfold special. rewrite !orb_true_iff, !bool_decide_eq_true. tauto.
Qed.

Lemma special_amp c : special c = false → c ≠ "&"%char.
Proof. by intros H ->. Qed.

(** The piece that one character contributes to the escaped string. *)
Lemma replace_cons c s :
  replace_special (String c s)
  = (if special c then entity c else String c "") ++ replace_special s.
Proof. done. Qed.

Lemma piece_inj c c' x y :
  (if special c then entity c else String c "") ++ x
  = (if special c' then entity c' else String c' "") ++ y →
  c = c' ∧ x = y.
Proof.
  destruct (special c) eqn:E, (special c') eqn:E'.
  - destruct (special_cases c E) as [->|[->|[->|[->| ->]]]],
      (special_cases c' E') as [->|[->|[->|[->| ->]]]];
      cbn; intros H; by simplify_eq.
  - destruct (special_cases c E) as [->|[->|[->|[->| ->]]]];
      cbn; intros H; simplify_eq; by apply special_amp in E'.
  - destruct (special_cases c' E') as [->|[->|[->|[->| ->]]]];
      cbn; intros H; simplify_eq; by apply special_amp in E.
  - cbn. intros H. by simplify_eq.
Qed.

Lemma piece_nonempty c x :
  (if special c then entity c else String c "") ++ x ≠ "".
Proof.
  destruct (special c) eqn:E; [|done].
  by destruct (special_cases c E) as [->|[->|[->|[->| ->]]]].
Qed.

Lemma replace_special_inj a b :
  replace_special a = replace_special b → a = b.
Proof.
  revert b. induction a as [|c a IH]; intros [|c' b]; rewrite ?replace_cons.
  - done.
  - intros H. symmetry in H. by apply piece_nonempty in H.
  - intros H. by apply piece_nonempty in H.
  - intros [-> H]%piece_inj. f_equal. by apply IH.
Qed.

Lemma append_assoc (a b c : string) : (a ++ b) ++ c = a ++ (b ++ c).
Proof.
  induction a as [|x a IH]; [done|].
  change (String x ((a ++ b) ++ c) = String x (a ++ (b ++ c))). by rewrite IH.
Qed.

Lemma replace_special_app a b :
  replace_special (a ++ b) = replace_special a ++ replace_special b.
Proof.
  induction a as [|c a IH]; [done|].
  change (String c a ++ b) with (String c (a ++ b)).
  rewrite !replace_cons, IH. by rewrite append_assoc.
Qed.

Lemma chars_app (a b : string) :
  list_ascii_of_string (a ++ b)
  = (list_ascii_of_string a ++ list_ascii_of_string b)%list.
Proof.
  induction a as [|x a IH]; [done|].
  change (x :: list_ascii_of_string (a ++ b)
          = x :: (list_ascii_of_string a ++ list_ascii_of_string b)%list).
  by rewrite IH.
Qed.

Lemma length_app (a b : string) :
  String.length (a ++ b) = (String.length a + String.length b)%nat.
Proof.
  induction a as [|x a IH]; [done|].
  change (S (String.length (a ++ b))
          = S (String.length a + String.length b)). by rewrite IH.
Qed.

(** The piece of a special character is its entity, at least four long; the
    only special character in it is the leading ampersand. *)
Lemma entity_chars c x :
  special c = true → x ∈ list_ascii_of_string (entity c) →
  special x = true → x = "&"%char.
Proof.
  intros E Hin Hx.
  destruct (special_cases c E) as [->|[->|[->|[->| ->]]]]; cbn in Hin;
    repeat (apply elem_of_cons in Hin as [->|Hin]; [done || discriminate Hx|]);
    by apply elem_of_nil in Hin.
Qed.

Lemma entity_length c :
  special c = true → (4 ≤ String.length (entity c))%nat.
Proof.
  intros E. destruct (special_cases c E) as [->|[->|[->|[->| ->]]]];
    vm_compute; lia.
Qed.

Lemma replace_special_length s :
  (String.length s ≤ String.length (replace_special s))%nat.
Proof.
  induction s as [|c s IH]; [done|]. rewrite replace_cons, length_app.
  destruct (special c) eqn:E.
  - pose proof (entity_length c E). cbn [String.length]. lia.
  - cbn [String.length]. lia.
Qed.

End AdminUI_facts.

(** X17: [esc] loses nothing: two strings with the same escaped form are the
    same string, so two addresses never show as one in the console. *)
Theorem esc_injective (a b : string) :
  AdminUI.esc (Some a) = AdminUI.esc (Some b) → a = b.
Proof. apply AdminUI_facts.replace_special_inj. Qed.

Lemma esc_injective_witness : "a<b"%string = "a<b"%string.
Proof. apply (esc_injective "a<b" "a<b"). reflexivity. Defined.

(** X18: the escaped form is inert in HTML text and in a quoted attribute:
    whatever [esc] is given, its result holds no angle bracket and no quote
    of either kind; of the five characters it replaces only the ampersand
    occurs in it. *)
Theorem esc_output_inert (v : option string) (c : ascii) :
  c ∈ list_ascii_of_string (AdminUI.esc v) →
  AdminUI.special c = true → c = "&"%char.
Proof.
  unfold AdminUI.esc. generalize (default "" v). clear v.
  intros s. induction s as [|x s IH]; intros Hin Hc.
  - by apply elem_of_nil in Hin.
  - rewrite AdminUI_facts.replace_cons, AdminUI_facts.chars_app in Hin.
    apply elem_of_app in Hin as [Hin|Hin]; [|by apply IH].
    destruct (AdminUI.special x) eqn:E.
    + by apply (AdminUI_facts.entity_chars x c).
    + apply list_elem_of_singleton in Hin as ->. congruence.
Qed.

Lemma esc_output_inert_witness :
  "&"%char = "&"%char.
Proof.
  apply (esc_output_inert (Some "<b>") "&"%char); [|reflexivity].
  vm_compute. apply list_elem_of_here.
Defined.

(** X19: [esc] returns a string unchanged exactly when the string holds none
    of the five characters; it never shortens a string, and it distributes
    over concatenation, so a row can be escaped piece by piece. *)
Theorem esc_plain_iff (s t : string) :
  (AdminUI.esc (Some s) = s ↔
   ∀ c, c ∈ list_ascii_of_string s → AdminUI.special c = false)
  ∧ (String.length s ≤ String.length (AdminUI.esc (Some s)))%nat
  ∧ AdminUI.esc (Some (s ++ t)) = AdminUI.esc (Some s) ++ AdminUI.esc (Some t).
Proof.
  change (AdminUI.esc (Some s)) with (AdminUI.replace_special s).
  change (AdminUI.esc (Some t)) with (AdminUI.replace_special t).
  change (AdminUI.esc (Some (s ++ t))) with (AdminUI.replace_special (s ++ t)).
  split; [|split; [apply AdminUI_facts.replace_special_length
                  |apply AdminUI_facts.replace_special_app]].
  induction s as [|x s IH].
  - split; [|done]. intros _ c Hin. by apply elem_of_nil in Hin.
  - rewrite AdminUI_facts.replace_cons. destruct (AdminUI.special x) eqn:E.
    + split.
      * intros H. apply (f_equal String.length) in H.
        rewrite AdminUI_facts.length_app in H. cbn [String.length] in H.
        pose proof (AdminUI_facts.entity_length x E).
        pose proof (AdminUI_facts.replace_special_length s). lia.
      * intros H. specialize (H x (list_elem_of_here _ _)). congruence.
    + change (String x "" ++ AdminUI.replace_special s)
        with (String x (AdminUI.replace_special s)). split.
      * intros [= H] c [->|Hin]%elem_of_cons; [done|]. by apply IH.
      * intros H. f_equal. apply IH. intros c Hin. apply H. by right.
Qed.

(** ** The dictionary under any sequence of calls *)

Lemma grows_soundly_refl d : grows_soundly d d.
Proof. intros k e. by left. Qed.

Lemma grows_soundly_delete d a : grows_soundly d (delete a d).
Proof. intros k e [_ H]%lookup_delete_Some. by left. Qed.

Lemma grows_soundly_written d a now t :
  0 < t → grows_soundly d (<[a := written now t]> d).
Proof.
  intros Ht k e [[_ <-]|[_ H]]%lookup_insert_Some; [right|by left].
  exists now. by apply written_consistent.
Qed.

Lemma isAllowed_grows w d ip :
  whiteList w = Some d →
  ∃ d', whiteList (world_of (isAllowed ip w)) = Some d' ∧ grows_soundly d d'.
Proof.
  intros Hd. destruct (isAllowed_outcome w d ip Hd); cbn; rewrite ?Hd;
    eexists; (split; [reflexivity|]);
    auto using grows_soundly_refl, grows_soundly_delete.
  by apply grows_soundly_written.
Qed.

Lemma handle_grows c w d :
  whiteList w = Some d →
  ∃ d', whiteList (world_of (handle c w)) = Some d' ∧ grows_soundly d d'.
Proof.
  intros Hd. destruct c as [r|r|r|r|r|r|r]; cbn [handle].
  - destruct (isAllowed_grows w d (remoteAddress r) Hd) as (d' & Hd' & Hg).
    destruct (isAllowed_total w d (remoteAddress r) Hd) as (b & w' & Hc & _).
    rewrite Hc in Hd'. rewrite (http_verify_configured r w d b w' Hd Hc).
    by exists d'.
  - destruct (isAllowed_grows w d (remoteAddress r) Hd) as (d' & Hd' & Hg).
    destruct (isAllowed_total w d (remoteAddress r) Hd) as (b & w' & Hc & _).
    rewrite Hc in Hd'. rewrite (stream_verify_configured r w d b w' Hd Hc).
    by exists d'.
  - destruct (truthy (remoteAddress r)) as [a|] eqn:Ht.
    + rewrite (register_run r w d Hd a Ht). eexists. split; [done|].
      by apply grows_soundly_written.
    + rewrite (register_missing r w d Hd Ht). exists d. split; [done|].
      apply grows_soundly_refl.
  - destruct (truthy (remoteAddress r)) as [a|] eqn:Ht.
    + rewrite (cancel_run r w d Hd a Ht). eexists. split; [done|].
      apply grows_soundly_delete.
    + rewrite (cancel_missing r w d Hd Ht). exists d. split; [done|].
      apply grows_soundly_refl.
  - exists d. split; [|apply grows_soundly_refl].
    pose proof (adminWhiteList_store r w) as H. unfold store_after in H.
    by rewrite H.
  - destruct (truthy (args_ip r)) as [a|] eqn:Ht.
    + rewrite (adminRegister_run r w d Hd a Ht). eexists. split; [done|].
      apply grows_soundly_written, parseTtlMs_positive.
    + rewrite (adminRegister_missing r w d Hd Ht). exists d. split; [done|].
      apply grows_soundly_refl.
  - destruct (truthy (args_ip r)) as [a|] eqn:Ht.
    + rewrite (adminCancel_run r w d Hd a Ht). eexists. split; [done|].
      apply grows_soundly_delete.
    + rewrite (adminCancel_missing r w d Hd Ht). exists d. split; [done|].
      apply grows_soundly_refl.
Qed.

(** X20: whatever calls are served and in whatever order, a configured
    dictionary stays configured and every entry it holds afterwards was there
    at the start or is one that [storeIP] wrote: a number [now + ttl] next to
    the positive integer [ttl].  Served from a dictionary of such entries, and
    from the empty one in particular, the handlers never store a value that a
    later check would have to purge as corrupt. *)
Theorem served_dictionary_sound (cs : list Call) (w : World)
    (d : gmap string Entry) :
  whiteList w = Some d →
  ∃ d', whiteList (serve cs w) = Some d'
        ∧ (∀ k e, d' !! k = Some e → d !! k = Some e ∨ sound e)
        ∧ ((∀ k e, d !! k = Some e → sound e) →
           ∀ k e, d' !! k = Some e →
             sound e ∧ Num.isNaN (Number (val_of (value e))) = false).
Proof.
  intros Hd.
  assert (H : ∃ d', whiteList (serve cs w) = Some d' ∧ grows_soundly d d').
  { revert w d Hd. induction cs as [|c cs IH]; intros w d Hd.
    - exists d. split; [done|apply grows_soundly_refl].
    - destruct (handle_grows c w d Hd) as (d1 & Hd1 & Hg1).
      destruct (IH _ d1 Hd1) as (d' & Hd' & Hg').
      exists d'. split; [done|]. intros k e Hl.
      destruct (Hg' k e Hl) as [Hl1|Hs]; [by apply Hg1|by right]. }
  destruct H as (d' & Hd' & Hg). exists d'. split; [done|]. split; [done|].
  intros Hall k e Hl.
  assert (Hs : sound e) by (destruct (Hg k e Hl) as [?|?]; eauto).
  split; [done|]. destruct Hs as (now & t & _ & Hv & _). by rewrite Hv.
Qed.

Lemma served_dictionary_sound_witness :
  let r := mkRequest (Some "203.0.113.10") (Some "192.0.2.8") (Some "abc") None in
  ∃ d', whiteList (serve [Register r; AdminRegister r; Http_verify r; Cancel r]
                     (world (Some ∅) (fixed_clock T0))) = Some d'
        ∧ ∀ k e, d' !! k = Some e → sound e.
Proof.
  intros r.
  destruct (served_dictionary_sound
              [Register r; AdminRegister r; Http_verify r; Cancel r]
              (world (Some ∅) (fixed_clock T0)) ∅ eq_refl) as (d' & Hd' & _ & H).
  exists d'. split; [exact Hd'|]. intros k e Hl.
  apply (H ltac:(by intros ? ?) k e Hl).
Defined.
